(** * starknet.js, [src/utils/num.ts]: numeric conversions

    A shallow embedding of the conversion and validation functions of
    [src/utils/num.ts], together with the properties its specification
    states about them.

    Conventions of the embedding.
    - A JavaScript string is a [string]: the sequence of its code units.  The
      development covers code units below 256; every string the properties
      below quantify over (hex strings, whole-number strings) is ASCII.
    - A [bigint] is a [Z].
    - A [number] only ever reaches this module through [BigInt(...)] and
      [typeof]: what matters is whether it is an integer, and which one.
    - A function that may throw returns a [result]: [Ok v] for a normal
      return, [Throw e] for an exception. *)

From Stdlib Require Import ZArith Lia List Bool Ascii String.
Import ListNotations.

Open Scope string_scope.
Open Scope Z_scope.

(** ** Exceptions and results *)

(** The exceptions this module can raise.  [SyntaxError] and [RangeError] are
    the two exceptions of the built-in [BigInt(...)] conversion (the
    specification's "ParseError"); [Error msg] is [throw new Error(msg)],
    which the module uses for its own failures (the specification's
    "FormatError" and, through [assert], its "RangeError"). *)
Inductive exn : Type :=
| SyntaxError
| RangeError
| Error (message : string).

Inductive result (A : Type) : Type :=
| Ok (a : A)
| Throw (e : exn).

Arguments Ok {A} a.
Arguments Throw {A} e.

Definition bind {A B : Type} (r : result A) (k : A -> result B) : result B :=
  match r with
  | Ok a => k a
  | Throw e => Throw e
  end.

Notation "x <- r ;; k" := (bind r (fun x => k))
  (at level 61, r at next level, right associativity).

(** ** The language's built-ins *)

Module Js.

(** Code unit of a character. *)
Definition code (c : ascii) : Z := Z.of_N (N_of_ascii c).

Definition chr (z : Z) : ascii := ascii_of_N (Z.to_N z).

Definition between (lo hi : Z) (c : ascii) : bool :=
  (lo <=? code c) && (code c <=? hi).

(** [\d] and [[0-9]]. *)
Definition isDecimalDigit (c : ascii) : bool := between 48 57 c.

(** [[0-9a-f]]. *)
Definition isLowerHexDigit (c : ascii) : bool :=
  between 48 57 c || between 97 102 c.

(** [[0-9a-f]] under the [i] flag, and the hex digits of a numeric literal. *)
Definition isHexDigit (c : ascii) : bool :=
  between 48 57 c || between 97 102 c || between 65 70 c.

(** White space and line terminators (the ones below 256): TAB, LF, VT, FF,
    CR, SP and NBSP. *)
Definition isWhiteSpace (c : ascii) : bool :=
  between 9 13 c || (code c =? 32) || (code c =? 160).

Definition notWhiteSpace (c : ascii) : bool := negb (isWhiteSpace c).

Fixpoint all (p : ascii -> bool) (s : string) : bool :=
  match s with
  | EmptyString => true
  | String c r => p c && all p r
  end.

Fixpoint mapString (f : ascii -> ascii) (s : string) : string :=
  match s with
  | EmptyString => EmptyString
  | String c r => String (f c) (mapString f r)
  end.

(** [String.prototype.toLowerCase]: A-Z and the upper-case letters of
    Latin-1 (all of 0xC0-0xDE but the multiplication sign 0xD7) move up by
    32; nothing else below 256 changes. *)
Definition toLowerCaseChar (c : ascii) : ascii :=
  if between 65 90 c || (between 192 222 c && negb (code c =? 215))
  then chr (code c + 32)
  else c.

Definition toLowerCase (s : string) : string := mapString toLowerCaseChar s.

(** [count] characters of [filler] repeated, [cur] being what is left of the
    current copy. *)
Fixpoint cycle (count : nat) (filler cur : string) : string :=
  match count with
  | O => EmptyString
  | S n =>
      match cur with
      | String c r => String c (cycle n filler r)
      | EmptyString =>
          match filler with
          | String c r => String c (cycle n filler r)
          | EmptyString => EmptyString
          end
      end
  end.

(** [String.prototype.padStart(targetLength, fillString)]. *)
Definition padStart (s : string) (targetLength : nat) (fillString : string) : string :=
  if (targetLength <=? String.length s)%nat then s
  else cycle (targetLength - String.length s) fillString fillString ++ s.

(** *** Digits *)

(** Value of a digit character, in any radix up to 16. *)
Definition digitValue (c : ascii) : option Z :=
  if between 48 57 c then Some (code c - 48)
  else if between 97 102 c then Some (code c - 87)
  else if between 65 70 c then Some (code c - 55)
  else None.

(** The digit characters [toString] writes: 0-9 then a-z. *)
Definition digitChar (d : Z) : ascii :=
  if d <? 10 then chr (48 + d) else chr (87 + d).

(** Reads [s] as digits of the radix, most significant first, on top of the
    value [acc] already read. *)
Fixpoint parseAcc (radix : Z) (s : string) (acc : Z) : option Z :=
  match s with
  | EmptyString => Some acc
  | String c r =>
      match digitValue c with
      | Some d => if d <? radix then parseAcc radix r (acc * radix + d) else None
      | None => None
      end
  end.

(** One digit at least. *)
Definition parseDigits (radix : Z) (s : string) : option Z :=
  match s with
  | EmptyString => None
  | _ => parseAcc radix s 0
  end.

(** The digits of [n >= 0] in the radix, most significant first.  [fuel]
    bounds the number of digits. *)
Fixpoint digitsOf (radix : Z) (fuel : nat) (n : Z) : string :=
  match fuel with
  | O => EmptyString
  | S f =>
      if n <? radix then String (digitChar n) EmptyString
      else digitsOf radix f (n / radix) ++ String (digitChar (n mod radix)) EmptyString
  end.

(** A number below [2^(log2 n + 1)] has at most [log2 n + 1] digits in any
    radix from 2 up. *)
Definition digits (radix : Z) (n : Z) : string :=
  digitsOf radix (S (Z.to_nat (Z.log2 n))) n.

(** [BigInt.prototype.toString(radix)]. *)
Definition toString (z : Z) (radix : Z) : string :=
  if z <? 0 then String "-" (digits radix (- z)) else digits radix z.

(** *** [BigInt(...)] *)

Fixpoint trimStart (s : string) : string :=
  match s with
  | EmptyString => EmptyString
  | String c r => if isWhiteSpace c then trimStart r else s
  end.

Fixpoint trimEnd (s : string) : string :=
  match s with
  | EmptyString => EmptyString
  | String c r =>
      match trimEnd r with
      | EmptyString => if isWhiteSpace c then EmptyString else String c EmptyString
      | r' => String c r'
      end
  end.

Definition trim (s : string) : string := trimEnd (trimStart s).

(** StringToBigInt: white space around is dropped; nothing is zero; then
    either a radix prefix (0x, 0o, 0b, in either case) and digits of that
    radix, or an optional sign and decimal digits. *)
Definition StringToBigInt (str : string) : option Z :=
  match trim str with
  | EmptyString => Some 0
  | String c0 r0 =>
      match r0 with
      | String c1 r1 =>
          if (c0 =? "0")%char && ((c1 =? "x")%char || (c1 =? "X")%char) then parseDigits 16 r1
          else if (c0 =? "0")%char && ((c1 =? "o")%char || (c1 =? "O")%char) then parseDigits 8 r1
          else if (c0 =? "0")%char && ((c1 =? "b")%char || (c1 =? "B")%char) then parseDigits 2 r1
          else if (c0 =? "-")%char then option_map Z.opp (parseDigits 10 r0)
          else if (c0 =? "+")%char then parseDigits 10 r0
          else parseDigits 10 (String c0 r0)
      | EmptyString => parseDigits 10 (String c0 r0)
      end
  end.

(** A [number], as far as [BigInt(...)] and [typeof] can tell: an integer, or
    anything else (a fraction, NaN, an infinity). *)
Inductive number : Type :=
| Int (z : Z)
| NonInt.

(** The values a caller can pass where the parameter's type is [unknown]. *)
Inductive value : Type :=
| VNumber (n : number)
| VBigInt (z : Z)
| VString (s : string)
| VBoolean (b : bool)
| VUndefined
| VNull
| VObject.

Inductive type : Type :=
| TNumber | TBigInt | TString | TBoolean | TUndefined | TObject.

Definition typeof (v : value) : type :=
  match v with
  | VNumber _ => TNumber
  | VBigInt _ => TBigInt
  | VString _ => TString
  | VBoolean _ => TBoolean
  | VUndefined => TUndefined
  | VNull => TObject
  | VObject => TObject
  end.

End Js.

(** ** [types]: [BigNumberish = string | number | bigint] *)

Inductive BigNumberish : Type :=
| BNumber (n : Js.number)
| BBigInt (z : Z)
| BString (s : string).

Definition toValue (b : BigNumberish) : Js.value :=
  match b with
  | BNumber n => Js.VNumber n
  | BBigInt z => Js.VBigInt z
  | BString s => Js.VString s
  end.

(** [BigInt(value)] on a [BigNumberish]: a number that is not an integer
    raises RangeError, a string that does not read as an integer raises
    SyntaxError. *)
Definition BigInt (v : BigNumberish) : result Z :=
  match v with
  | BBigInt z => Ok z
  | BNumber (Js.Int z) => Ok z
  | BNumber Js.NonInt => Throw RangeError
  | BString s =>
      match Js.StringToBigInt s with
      | Some z => Ok z
      | None => Throw SyntaxError
      end
  end.

(** ** [utils/encode], [utils/assert] and the hex decoder *)

Module Encode.

(** Modelled from the spec: [removeHexPrefix], which [utils/num.ts] imports
    from [utils/encode].  The specification has a hex string start with the
    prefix "0x", case-insensitively, and has [hexToBytes] decode the digits
    that follow it: the helper drops that prefix when the string starts
    with it and leaves any other string alone. *)
Definition removeHexPrefix (hex : string) : string :=
  match hex with
  | String c0 (String c1 r) =>
      if (c0 =? "0")%char && ((c1 =? "x")%char || (c1 =? "X")%char) then r else hex
  | _ => hex
  end.

(** Modelled from the spec: [addHexPrefix], which [utils/num.ts] imports from
    [utils/encode].  The specification says of [hexToDecimalString] that the
    prefix is optional and that the function adds it if absent: the result
    is "0x" followed by the string without its prefix. *)
Definition addHexPrefix (hex : string) : string :=
  "0x" ++ removeHexPrefix hex.

End Encode.

(** Modelled from the spec: [assert], which [utils/num.ts] imports from
    [utils/assert].  The specification has a failed assertion raise an error
    that carries the message it was given, and a successful one do
    nothing. *)
Definition assert (condition : bool) (message : string) : result unit :=
  if condition then Ok tt else Throw (Error message).

Module Noble.

(** Modelled from the spec: the loop of the decoder below, one byte for each
    pair of hex digits. *)
Fixpoint decodePairs (hex : string) : result (list Z) :=
  match hex with
  | EmptyString => Ok []
  | String c1 (String c2 r) =>
      match Js.digitValue c1, Js.digitValue c2 with
      | Some n1, Some n2 => bytes <- decodePairs r ;; Ok (n1 * 16 + n2 :: bytes)
      | _, _ => Throw (Error "hex string expected, got non-hex character")
      end
  | String _ EmptyString => Throw (Error "padded hex string expected")
  end.

(** Modelled from the spec: [hexToBytes] of [@noble/curves/abstract/utils],
    the hex-decode primitive the specification lists as an external
    collaborator.  It takes hex digits without a prefix, two for each byte,
    most significant first; a string of odd length or with a character that
    is not a hex digit is refused.  A [Uint8Array] is the list of its
    elements. *)
Definition hexToBytes (hex : string) : result (list Z) :=
  if Nat.odd (String.length hex) then Throw (Error "padded hex string expected")
  else decodePairs hex.

End Noble.

(** ** [utils/num] *)

(** [/^0x[0-9a-f]*$/i.test(hex)] *)
Definition isHex (hex : string) : bool :=
  match hex with
  | String c0 (String c1 r) =>
      (c0 =? "0")%char && ((c1 =? "x")%char || (c1 =? "X")%char) && Js.all Js.isHexDigit r
  | _ => false
  end.

Definition toBigInt (value : BigNumberish) : result Z := BigInt value.

Definition isBigInt (value : Js.value) : bool :=
  match Js.typeof value with Js.TBigInt => true | _ => false end.

Definition toHex (value : BigNumberish) : result string :=
  z <- toBigInt value ;;
  Ok (Encode.addHexPrefix (Js.toString z 16)).

Definition toHexString := toHex.

Definition toStorageKey (number : BigNumberish) : result string :=
  z <- toBigInt number ;;
  Ok (Encode.addHexPrefix (Js.padStart (Js.toString z 16) 64 "0")).

Definition hexToDecimalString (hex : string) : result string :=
  z <- BigInt (BString (Encode.addHexPrefix hex)) ;;
  Ok (Js.toString z 10).

(** What is left of [s] after the longest run of "0" it starts with: the
    [0+] of the pattern below is greedy. *)
Fixpoint dropZeros (s : string) : string :=
  match s with
  | String c r => if (c =? "0")%char then dropZeros r else s
  | EmptyString => EmptyString
  end.

(** [.replace(/^(0x)0+/, '$1')]: a string that starts with "0x0" loses every
    "0" that follows the "0x"; any other string is left as it is. *)
Definition replaceLeadingZeros (s : string) : string :=
  match s with
  | String c0 (String c1 (String c2 r)) =>
      if (c0 =? "0")%char && (c1 =? "x")%char && (c2 =? "0")%char
      then "0x" ++ dropZeros r
      else s
  | _ => s
  end.

Definition cleanHex (hex : string) : string :=
  replaceLeadingZeros (Js.toLowerCase hex).

(** [inputName] is optional and defaults to the empty string. *)
Definition assertInRange (input lowerBound upperBound : BigNumberish)
    (inputName : option string) : result unit :=
  let inputName := match inputName with Some n => n | None => "" end in
  let messageSuffix :=
    if (inputName =? "")%string then "invalid length"
    else "invalid " ++ inputName ++ " length" in
  inputBigInt <- BigInt input ;;
  lowerBoundBigInt <- BigInt lowerBound ;;
  upperBoundBigInt <- BigInt upperBound ;;
  assert ((lowerBoundBigInt <=? inputBigInt) && (inputBigInt <=? upperBoundBigInt))
         ("Message not signable, " ++ messageSuffix ++ ".").

(** [/^\d+$/.test(str)] *)
Definition isStringWholeNumber (str : string) : bool :=
  match str with
  | EmptyString => false
  | _ => Js.all Js.isDecimalDigit str
  end.

Definition getDecimalString (str : string) : result string :=
  if isHex str then hexToDecimalString str
  else if isStringWholeNumber str then Ok str
  else Throw (Error (str ++ " needs to be a hex-string or whole-number-string")).

Definition getHexString (str : string) : result string :=
  if isHex str then Ok str
  else if isStringWholeNumber str then toHexString (BString str)
  else Throw (Error (str ++ " needs to be a hex-string or whole-number-string")).

Definition hexToBytes (str : string) : result (list Z) :=
  if negb (isHex str) then Throw (Error (str ++ " needs to be a hex-string"))
  else
    let adaptedValue := Encode.removeHexPrefix str in
    let adaptedValue :=
      if negb (Nat.even (String.length adaptedValue))
      then String "0" adaptedValue
      else adaptedValue in
    Noble.hexToBytes adaptedValue.

(** The quotient of two [bigint]s is truncated towards zero: [Z.quot]. *)
Definition addPercent (number : BigNumberish) (percent : Js.number) : result Z :=
  bigIntNum <- BigInt number ;;
  p <- BigInt (BNumber percent) ;;
  Ok (bigIntNum + Z.quot (bigIntNum * p) 100).

Definition isNumber (value : Js.value) : bool :=
  match Js.typeof value with Js.TNumber => true | _ => false end.

Definition isBoolean (value : Js.value) : bool :=
  match Js.typeof value with Js.TBoolean => true | _ => false end.

Definition isBigNumberish (input : Js.value) : bool :=
  isNumber input
  || isBigInt input
  || match input with
     | Js.VString s => isHex s || isStringWholeNumber s
     | _ => false
     end.

(** [Array.prototype.map] over an array, as the list of its elements, with a
    callback that may throw: the elements are visited in order and the
    first exception ends the call. *)
Fixpoint mapArray {A B : Type} (f : A -> result B) (array : list A) : result (list B) :=
  match array with
  | [] => Ok []
  | x :: rest =>
      y <- f x ;;
      ys <- mapArray f rest ;;
      Ok (y :: ys)
  end.

Definition bigNumberishArrayToDecimalStringArray (data : list BigNumberish)
  : result (list string) :=
  mapArray (fun x => z <- toBigInt x ;; Ok (Js.toString z 10)) data.

Definition bigNumberishArrayToHexadecimalStringArray (data : list BigNumberish)
  : result (list string) :=
  mapArray (fun x => toHex x) data.

Definition getHexStringArray (array : list string) : result (list string) :=
  mapArray getHexString array.

(** Modelled from the spec: [MASK_31], which [utils/num.ts] imports from
    [constants].  The specification has [stringToSha256ToArrayBuff4] keep the
    low 31 bits of the digest: the mask is [2^31 - 1]. *)
Definition MASK_31 : Z := 2 ^ 31 - 1.

(** Modelled from the spec: [buf2hex], which [utils/num.ts] imports from
    [utils/encode], the hex-encode primitive for raw byte sequences: two
    lower-case hex digits for each byte, in order, without a prefix. *)
Definition buf2hex (buffer : list Z) : string :=
  fold_left (fun r x => r ++ Js.padStart (Js.toString x 16) 2 "0") buffer "".

(** The digest primitive is a parameter: [sha256 str] is the digest of the
    UTF-8 string [str], as the list of its bytes.  [Number(n & MASK_31)] is
    an integer below [2^31], which a [number] holds exactly. *)
Definition stringToSha256ToArrayBuff4 (sha256 : string -> list Z) (str : string)
  : result (list Z) :=
  let int31 := fun n : Z => Js.Int (Z.land n MASK_31) in
  n <- BigInt (BString (Encode.addHexPrefix (buf2hex (sha256 str)))) ;;
  let result := int31 n in
  h <- toHex (BNumber result) ;;
  hexToBytes h.

(** ** Vocabulary of the properties *)

(** [n] times the character "0". *)
Fixpoint zeros (n : nat) : string :=
  match n with
  | O => EmptyString
  | S k => String "0" (zeros k)
  end.

Definition startsWithZero (s : string) : bool :=
  match s with
  | String c _ => (c =? "0")%char
  | EmptyString => false
  end.

(** Digits in canonical form: one at least, each of them one of 0-9 and a-f,
    and no "0" in front unless "0" is all there is. *)
Definition canonicalDigits (s : string) : bool :=
  negb (s =? "")%string
  && Js.all Js.isLowerHexDigit s
  && ((s =? "0")%string || negb (startsWithZero s)).

(** A canonical hex string: "0x" and canonical digits. *)
Definition canonicalHex (s : string) : bool :=
  match s with
  | String c0 (String c1 d) => (c0 =? "0")%char && (c1 =? "x")%char && canonicalDigits d
  | _ => false
  end.

(** A whole-number string without its leading zeros: what is left once they
    are dropped, or "0" when nothing is. *)
Definition normalizeDecimal (d : string) : string :=
  match dropZeros d with
  | EmptyString => "0"
  | s => s
  end.

(** The number a byte sequence denotes, most significant byte first, on top
    of [acc]. *)
Definition bytesValue (bytes : list Z) (acc : Z) : Z :=
  fold_left (fun a b => a * 256 + b) bytes acc.

(** What a successful decoding of the digits [s] is: a byte for every two
    digits, each byte below 256, denoting the number the digits denote. *)
Definition decodes (s : string) (bytes : list Z) : Prop :=
  Noble.decodePairs s = Ok bytes /\
  List.length bytes = Nat.div2 (String.length s) /\
  Forall (fun b => 0 <= b < 256) bytes /\
  forall acc, Js.parseAcc 16 s acc = Some (bytesValue bytes acc).

(** The digits with a "0" in front when they are in odd number. *)
Definition padded (ds : string) : string :=
  if Nat.odd (String.length ds) then String "0" ds else ds.

(** The message of the error the two string converters raise. *)
Definition neitherMessage (str : string) : string :=
  str ++ " needs to be a hex-string or whole-number-string".

(** The label [assertInRange] was given, empty when it was given none. *)
Definition labelOf (inputName : option string) : string :=
  match inputName with
  | Some label => label
  | None => ""
  end.

(** [label] occurs in [s]. *)
Definition embeds (s label : string) : Prop :=
  exists before after, s = before ++ label ++ after.

(** The pattern the documentation of [toStorageKey] gives for a storage key,
    [^0x0[0-7]{1}[a-fA-F0-9]{0,62}$]: "0x0", a digit from 0 to 7, and at
    most 62 hex digits. *)
Definition isStorageKey (s : string) : bool :=
  match s with
  | String c0 (String c1 (String c2 (String c3 r))) =>
      (c0 =? "0")%char && (c1 =? "x")%char && (c2 =? "0")%char
      && Js.between 48 55 c3
      && Js.all Js.isHexDigit r
      && (String.length r <=? 62)%nat
  | _ => false
  end.

(** A byte. *)
Definition isByte (b : Z) : Prop := 0 <= b < 256.

(** * Properties *)

(** ** Characters *)

Section Characters.

Import Js.

Ltac split_char c := destruct c as [[] [] [] [] [] [] [] []].

Ltac each_char c :=
  split_char c; vm_compute; try discriminate; try reflexivity.

Ltac each_char_in c H :=
  split_char c; intros H; vm_compute in H; try discriminate H.

Ltac each_digit d :=
  let H := fresh in
  assert (H : d = 0 \/ d = 1 \/ d = 2 \/ d = 3 \/ d = 4 \/ d = 5 \/ d = 6 \/ d = 7 \/
              d = 8 \/ d = 9 \/ d = 10 \/ d = 11 \/ d = 12 \/ d = 13 \/ d = 14 \/ d = 15)
    by lia;
  repeat (destruct H as [H | H]; [subst d; vm_compute; try reflexivity |]);
  try (subst d; vm_compute; try reflexivity).

Lemma digitValue_digitChar d : 0 <= d < 16 -> digitValue (digitChar d) = Some d.
Proof. intros Hd. each_digit d. Qed.

Lemma digitChar_lower d : 0 <= d < 16 -> isLowerHexDigit (digitChar d) = true.
Proof. intros Hd. each_digit d. Qed.

Lemma digitChar_decimal d : 0 <= d < 10 -> isDecimalDigit (digitChar d) = true.
Proof. intros Hd. each_digit d; lia. Qed.

Lemma digitChar_zero d : 0 <= d < 16 -> (digitChar d =? "0")%char = (d =? 0).
Proof. intros Hd. each_digit d. Qed.

Lemma digitValue_range c d : digitValue c = Some d -> 0 <= d < 16.
Proof. each_char_in c H; injection H as <-; lia. Qed.

Lemma digitChar_digitValue c d :
  isLowerHexDigit c = true -> digitValue c = Some d -> digitChar d = c.
Proof. each_char c; intros _ [= <-]; reflexivity. Qed.

Lemma digitValue_zero c d :
  digitValue c = Some d -> (c =? "0")%char = (d =? 0).
Proof. each_char c; intros [= <-]; reflexivity. Qed.

Lemma isHexDigit_value c : isHexDigit c = true -> exists d, digitValue c = Some d.
Proof. each_char_in c H; eexists; vm_compute; reflexivity. Qed.

Lemma isDecimalDigit_value c :
  isDecimalDigit c = true -> exists d, digitValue c = Some d /\ 0 <= d < 10.
Proof. each_char_in c H; eexists; (split; [vm_compute; reflexivity | lia]). Qed.

Lemma isDecimalDigit_lower c : isDecimalDigit c = true -> isLowerHexDigit c = true.
Proof. each_char c. Qed.

Lemma isLowerHexDigit_hex c : isLowerHexDigit c = true -> isHexDigit c = true.
Proof. each_char c. Qed.

Lemma isHexDigit_not_x c :
  isHexDigit c = true -> ((c =? "x")%char || (c =? "X")%char) = false.
Proof. each_char c. Qed.

Lemma isHexDigit_not_space c : isHexDigit c = true -> isWhiteSpace c = false.
Proof. each_char c. Qed.

(** A decimal digit is none of the letters and signs [StringToBigInt] looks
    for. *)
Lemma isDecimalDigit_plain c :
  isDecimalDigit c = true ->
  ((c =? "x")%char || (c =? "X")%char) = false /\
  ((c =? "o")%char || (c =? "O")%char) = false /\
  ((c =? "b")%char || (c =? "B")%char) = false /\
  (c =? "-")%char = false /\ (c =? "+")%char = false.
Proof. each_char c; intros _; repeat split. Qed.

Lemma toLowerCaseChar_hex c :
  isHexDigit c = true ->
  isLowerHexDigit (toLowerCaseChar c) = true /\
  digitValue (toLowerCaseChar c) = digitValue c.
Proof. each_char c; intros _; split; reflexivity. Qed.

Lemma toLowerCaseChar_lower c :
  isLowerHexDigit c = true -> toLowerCaseChar c = c.
Proof. each_char c. Qed.

Lemma toLowerCaseChar_x c :
  ((c =? "x")%char || (c =? "X")%char) = true -> toLowerCaseChar c = "x"%char.
Proof. each_char c. Qed.

Lemma toLowerCaseChar_idem c :
  toLowerCaseChar (toLowerCaseChar c) = toLowerCaseChar c.
Proof. each_char c. Qed.

End Characters.

(** ** Strings *)

Section Strings.

Import Js.

Lemma append_assoc (a b c : string) : (a ++ b) ++ c = a ++ (b ++ c).
Proof. induction a as [| x a IH]; simpl; [reflexivity | now rewrite IH]. Qed.

Lemma append_empty_r (a : string) : a ++ "" = a.
Proof. induction a as [| x a IH]; simpl; [reflexivity | now rewrite IH]. Qed.

Lemma length_append (a b : string) :
  String.length (a ++ b) = (String.length a + String.length b)%nat.
Proof. induction a as [| x a IH]; simpl; [reflexivity | now rewrite IH]. Qed.

Lemma all_append p (a b : string) : all p (a ++ b) = all p a && all p b.
Proof.
  induction a as [| x a IH]; simpl; [reflexivity |].
  now rewrite IH, andb_assoc.
Qed.

Lemma all_impl (p q : ascii -> bool) (s : string) :
  (forall c, p c = true -> q c = true) -> all p s = true -> all q s = true.
Proof.
  intros Hpq. induction s as [| c s IH]; simpl; [reflexivity |].
  intros [Hc Hs]%andb_prop. now rewrite (Hpq c Hc), IH.
Qed.

Lemma string_of_list_snoc (l : list ascii) (c : ascii) :
  string_of_list_ascii (l ++ [c]) = string_of_list_ascii l ++ String c "".
Proof. induction l as [| x l IH]; simpl; [reflexivity | now rewrite IH]. Qed.

(** Induction from the last character. *)
Lemma string_rev_ind (P : string -> Prop) :
  P "" -> (forall c s, P s -> P (s ++ String c "")) -> forall s, P s.
Proof.
  intros Hnil Hsnoc s.
  rewrite <- (string_of_list_ascii_of_string s).
  induction (list_ascii_of_string s) as [| c l IH] using rev_ind.
  - exact Hnil.
  - rewrite string_of_list_snoc. now apply Hsnoc.
Qed.

Lemma trimStart_id (s : string) :
  all notWhiteSpace s = true -> trimStart s = s.
Proof.
  destruct s as [| c s]; cbn [all trimStart]; [reflexivity |].
  unfold notWhiteSpace. intros [Hc _]%andb_prop. now destruct (isWhiteSpace c).
Qed.

Lemma trimEnd_id (s : string) :
  all notWhiteSpace s = true -> trimEnd s = s.
Proof.
  induction s as [| c s IH]; cbn [all trimEnd]; [reflexivity |].
  unfold notWhiteSpace at 1. intros [Hc Hs]%andb_prop. rewrite (IH Hs).
  destruct s; [now destruct (isWhiteSpace c) | reflexivity].
Qed.

Lemma trim_id (s : string) :
  all notWhiteSpace s = true -> trim s = s.
Proof. intros H. unfold trim. now rewrite (trimStart_id _ H), trimEnd_id. Qed.

Lemma toLowerCase_idem (s : string) : toLowerCase (toLowerCase s) = toLowerCase s.
Proof.
  unfold toLowerCase.
  induction s as [| c s IH]; cbn [mapString]; [reflexivity |].
  now rewrite toLowerCaseChar_idem, IH.
Qed.

Lemma toLowerCase_lower (s : string) :
  all isLowerHexDigit s = true -> toLowerCase s = s.
Proof.
  unfold toLowerCase.
  induction s as [| c s IH]; cbn [mapString all]; [reflexivity |].
  intros [Hc Hs]%andb_prop.
  now rewrite (toLowerCaseChar_lower _ Hc), (IH Hs).
Qed.

Lemma toLowerCase_hex (s : string) :
  all isHexDigit s = true -> all isLowerHexDigit (toLowerCase s) = true.
Proof.
  unfold toLowerCase.
  induction s as [| c s IH]; cbn [mapString all]; [reflexivity |].
  intros [Hc Hs]%andb_prop.
  now rewrite (proj1 (toLowerCaseChar_hex _ Hc)), (IH Hs).
Qed.

End Strings.

(** ** Digits: [toString] against the reading of numeric literals *)

Section Digits.

Import Js.

Variable radix : Z.
Hypothesis radix_range : 2 <= radix <= 16.

Lemma parseAcc_append (a b : string) (acc : Z) :
  parseAcc radix (a ++ b) acc =
  match parseAcc radix a acc with
  | Some v => parseAcc radix b v
  | None => None
  end.
Proof.
  revert acc. induction a as [| c a IH]; intros acc; simpl; [reflexivity |].
  destruct (digitValue c) as [d |]; [| reflexivity].
  destruct (d <? radix); [apply IH | reflexivity].
Qed.

Lemma parseAcc_digitChar (d acc : Z) :
  0 <= d < radix ->
  parseAcc radix (String (digitChar d) "") acc = Some (acc * radix + d).
Proof.
  intros Hd. simpl. rewrite digitValue_digitChar by lia.
  now replace (d <? radix) with true by (symmetry; apply Z.ltb_lt; lia).
Qed.

Lemma pow2_succ (f : nat) : 2 ^ Z.of_nat (S f) = 2 * 2 ^ Z.of_nat f.
Proof. rewrite Nat2Z.inj_succ, Z.pow_succ_r by lia. reflexivity. Qed.

Lemma div_radix_fuel (f : nat) (n : Z) :
  0 <= n < 2 ^ Z.of_nat (S f) -> 0 <= n / radix < 2 ^ Z.of_nat f.
Proof.
  rewrite pow2_succ. intros Hn. split.
  - apply Z.div_pos; lia.
  - apply Z.div_lt_upper_bound; [lia |].
    assert (0 < 2 ^ Z.of_nat f) by (apply Z.pow_pos_nonneg; lia). nia.
Qed.

(** Reading back what [digitsOf] wrote gives the number. *)
Lemma digitsOf_parse (fuel : nat) (n : Z) :
  0 <= n < 2 ^ Z.of_nat fuel -> parseAcc radix (digitsOf radix fuel n) 0 = Some n.
Proof.
  revert n. induction fuel as [| f IH]; intros n Hn.
  - simpl in *. f_equal. lia.
  - cbn [digitsOf]. destruct (Z.ltb_spec n radix) as [Hlt | Hge].
    + rewrite parseAcc_digitChar by lia. f_equal; lia.
    + rewrite parseAcc_append, (IH _ (div_radix_fuel _ _ Hn)).
      rewrite parseAcc_digitChar by (apply Z.mod_pos_bound; lia).
      f_equal. pose proof (Z.div_mod n radix). lia.
Qed.

Lemma digitsOf_nonempty (f : nat) (n : Z) : digitsOf radix (S f) n <> "".
Proof.
  cbn [digitsOf]. destruct (n <? radix); [discriminate |].
  destruct (digitsOf radix f (n / radix)); discriminate.
Qed.

Lemma digitsOf_lower (fuel : nat) (n : Z) :
  0 <= n -> all isLowerHexDigit (digitsOf radix fuel n) = true.
Proof.
  revert n. induction fuel as [| f IH]; intros n Hn; [reflexivity |].
  cbn [digitsOf]. destruct (Z.ltb_spec n radix) as [Hlt | Hge].
  - cbn [all]. rewrite digitChar_lower by lia. reflexivity.
  - rewrite all_append, IH by (apply Z.div_pos; lia).
    cbn [all]. rewrite digitChar_lower; [reflexivity |].
    pose proof (Z.mod_pos_bound n radix). lia.
Qed.

(** A number below [radix^k] takes [k] digits at most. *)
Lemma digitsOf_length (fuel : nat) (n : Z) (k : nat) :
  0 <= n < radix ^ Z.of_nat k -> (1 <= k)%nat ->
  (String.length (digitsOf radix fuel n) <= k)%nat.
Proof.
  revert n k. induction fuel as [| f IH]; intros n k Hn Hk; [simpl; lia |].
  cbn [digitsOf]. destruct (Z.ltb_spec n radix) as [Hlt | Hge]; [simpl; lia |].
  destruct k as [| k]; [lia |].
  rewrite Nat2Z.inj_succ, Z.pow_succ_r in Hn by lia.
  destruct k as [| k]; [rewrite Z.pow_0_r in Hn; lia |].
  rewrite length_append. simpl String.length.
  assert (String.length (digitsOf radix f (n / radix)) <= S k)%nat; [| lia].
  apply IH; [| lia]. split; [apply Z.div_pos; lia |].
  apply Z.div_lt_upper_bound; lia.
Qed.

Lemma parseAcc_ge (s : string) (acc v : Z) :
  0 <= acc -> parseAcc radix s acc = Some v -> acc <= v.
Proof.
  revert acc. induction s as [| c s IH]; intros acc Hacc; cbn [parseAcc].
  - intros [= <-]. lia.
  - destruct (digitValue c) as [d |] eqn:Hc; [| discriminate].
    apply digitValue_range in Hc.
    destruct (d <? radix); [| discriminate].
    intros H%IH; nia.
Qed.

Lemma parseAcc_positive (s : string) (v : Z) :
  s <> "" -> startsWithZero s = false -> parseAcc radix s 0 = Some v -> 0 < v.
Proof.
  destruct s as [| c s]; [congruence |]. intros _. cbn [startsWithZero parseAcc].
  intros Hc. destruct (digitValue c) as [d |] eqn:Hd; [| discriminate].
  rewrite (digitValue_zero _ _ Hd) in Hc. apply digitValue_range in Hd.
  destruct (d <? radix); [| discriminate].
  intros H%parseAcc_ge; lia.
Qed.

Lemma startsWithZero_append (a b : string) :
  a <> "" -> startsWithZero (a ++ b) = startsWithZero a.
Proof. destruct a; [congruence | reflexivity]. Qed.

Lemma digitsOf_head (fuel : nat) (n : Z) :
  0 < n < 2 ^ Z.of_nat fuel -> startsWithZero (digitsOf radix fuel n) = false.
Proof.
  revert n. induction fuel as [| f IH]; intros n Hn; [reflexivity |].
  cbn [digitsOf]. destruct (Z.ltb_spec n radix) as [Hlt | Hge].
  - cbn [startsWithZero]. rewrite digitChar_zero by lia. apply Z.eqb_neq. lia.
  - assert (Hq : 0 < n / radix < 2 ^ Z.of_nat f).
    { pose proof (div_radix_fuel f n ltac:(lia)).
      assert (0 < n / radix) by (apply Z.div_str_pos; lia). lia. }
    destruct f as [| f]; [cbn in Hq; lia |].
    rewrite startsWithZero_append by apply digitsOf_nonempty.
    now apply IH.
Qed.

(** [digitsOf] writes the only canonical digits that read as the number. *)
Lemma digitsOf_unique (s : string) :
  s <> "" -> all isLowerHexDigit s = true -> startsWithZero s = false ->
  forall (fuel : nat) (v : Z),
    parseAcc radix s 0 = Some v -> v < 2 ^ Z.of_nat fuel ->
    digitsOf radix fuel v = s.
Proof.
  induction s as [| c s IH] using string_rev_ind; [congruence |].
  intros _ Hall Hhead fuel v Hparse Hfuel.
  rewrite all_append in Hall. apply andb_prop in Hall as [Hs Hc].
  cbn [all] in Hc. rewrite andb_true_r in Hc.
  rewrite parseAcc_append in Hparse.
  destruct (parseAcc radix s 0) as [v' |] eqn:Hv'; [| discriminate].
  cbn [parseAcc] in Hparse.
  destruct (digitValue c) as [d |] eqn:Hd; [| discriminate].
  pose proof (digitValue_range _ _ Hd) as Hrange.
  destruct (Z.ltb_spec d radix) as [Hlt | Hge]; [| discriminate].
  injection Hparse as <-.
  destruct s as [| x s].
  - (* a single digit *)
    cbn in Hv'. injection Hv' as <-. cbn [append startsWithZero] in *.
    rewrite (digitValue_zero _ _ Hd) in Hhead. apply Z.eqb_neq in Hhead.
    destruct fuel as [| f]; [cbn in Hfuel; lia |].
    cbn [digitsOf]. replace (0 * radix + d) with d by lia.
    destruct (Z.ltb_spec d radix); [| lia].
    now rewrite (digitChar_digitValue _ _ Hc Hd).
  - (* more digits: the last one is the remainder *)
    assert (Hne : String x s <> "") by discriminate.
    rewrite startsWithZero_append in Hhead by exact Hne.
    pose proof (parseAcc_positive _ _ Hne Hhead Hv') as Hpos.
    destruct fuel as [| f]; [cbn in Hfuel; nia |].
    rewrite pow2_succ in Hfuel.
    cbn [digitsOf]. destruct (Z.ltb_spec (v' * radix + d) radix); [nia |].
    replace ((v' * radix + d) / radix) with v'
      by (apply Z.div_unique with d; lia).
    replace ((v' * radix + d) mod radix) with d
      by (apply Z.mod_unique with v'; lia).
    rewrite (IH Hne Hs Hhead f v' eq_refl) by nia.
    now rewrite (digitChar_digitValue _ _ Hc Hd).
Qed.

Lemma fuel_enough (n : Z) :
  0 <= n -> 0 <= n < 2 ^ Z.of_nat (S (Z.to_nat (Z.log2 n))).
Proof.
  intros Hn. rewrite Nat2Z.inj_succ, Z2Nat.id by apply Z.log2_nonneg.
  destruct (Z.eq_dec n 0) as [-> | Hne]; [cbn; lia |].
  pose proof (Z.log2_spec n). lia.
Qed.

Lemma digits_nonempty (n : Z) : digits radix n <> "".
Proof. apply digitsOf_nonempty. Qed.

Lemma digits_parseAcc (n : Z) : 0 <= n -> parseAcc radix (digits radix n) 0 = Some n.
Proof. intros Hn. apply digitsOf_parse, fuel_enough, Hn. Qed.

Lemma digits_parse (n : Z) : 0 <= n -> parseDigits radix (digits radix n) = Some n.
Proof.
  intros Hn. unfold parseDigits.
  pose proof (digits_nonempty n). rewrite <- (digits_parseAcc n Hn).
  now destruct (digits radix n).
Qed.

Lemma digits_zero : digits radix 0 = "0".
Proof.
  unfold digits. cbn [Z.log2 Z.to_nat digitsOf].
  destruct (Z.ltb_spec 0 radix); [reflexivity | lia].
Qed.

Lemma digits_lower (n : Z) : 0 <= n -> all isLowerHexDigit (digits radix n) = true.
Proof. apply digitsOf_lower. Qed.

Lemma digits_head (n : Z) : 0 < n -> startsWithZero (digits radix n) = false.
Proof. intros Hn. apply digitsOf_head. pose proof (fuel_enough n). lia. Qed.

Lemma digits_canonical (n : Z) : 0 <= n -> canonicalDigits (digits radix n) = true.
Proof.
  intros Hn. unfold canonicalDigits.
  rewrite digits_lower by exact Hn.
  destruct (String.eqb_spec (digits radix n) "") as [He | _];
    [now apply digits_nonempty in He |].
  destruct (Z.eq_dec n 0) as [-> | Hne].
  - now rewrite digits_zero.
  - rewrite digits_head by lia. now rewrite orb_true_r.
Qed.

Lemma digits_length (n : Z) (k : nat) :
  0 <= n < radix ^ Z.of_nat k -> (1 <= k)%nat ->
  (String.length (digits radix n) <= k)%nat.
Proof. apply digitsOf_length. Qed.

(** Canonical digits are the digits of the number they read as. *)
Lemma digits_unique (s : string) (v : Z) :
  canonicalDigits s = true -> parseAcc radix s 0 = Some v -> digits radix v = s.
Proof.
  unfold canonicalDigits.
  intros [[Hne Hall]%andb_prop Hcanon]%andb_prop Hparse.
  destruct (String.eqb_spec s "") as [| Hne']; [discriminate |].
  destruct (String.eqb_spec s "0") as [-> | _].
  - cbn in Hparse. destruct (0 <? radix); [| discriminate].
    injection Hparse as <-. apply digits_zero.
  - cbn [orb] in Hcanon. apply negb_true_iff in Hcanon.
    pose proof (parseAcc_positive _ _ Hne' Hcanon Hparse) as Hpos.
    apply digitsOf_unique; try assumption.
    pose proof (fuel_enough v). lia.
Qed.

Lemma parseAcc_zeros (k : nat) (s : string) :
  parseAcc radix (zeros k ++ s) 0 = parseAcc radix s 0.
Proof.
  induction k as [| k IH]; [reflexivity |].
  cbn [zeros append parseAcc]. change (digitValue "0") with (Some 0). cbv beta iota.
  destruct (Z.ltb_spec 0 radix); [exact IH | lia].
Qed.

Lemma parseAcc_dropZeros (s : string) :
  parseAcc radix (dropZeros s) 0 = parseAcc radix s 0.
Proof.
  induction s as [| c s IH]; [reflexivity |].
  cbn [dropZeros]. destruct (Ascii.eqb_spec c "0") as [-> | _]; [| reflexivity].
  rewrite IH. cbn [parseAcc]. change (digitValue "0") with (Some 0). cbv beta iota.
  destruct (Z.ltb_spec 0 radix); [reflexivity | lia].
Qed.

(** Digits all read as a number. *)
Lemma parseAcc_total (p : ascii -> bool) (s : string) (acc : Z) :
  (forall c, p c = true -> exists d, digitValue c = Some d /\ 0 <= d < radix) ->
  all p s = true -> exists v, parseAcc radix s acc = Some v.
Proof.
  intros Hp. revert acc. induction s as [| c s IH]; intros acc; cbn [all parseAcc].
  - intros _. now exists acc.
  - intros [Hc Hs]%andb_prop. destruct (Hp c Hc) as (d & -> & Hd).
    destruct (Z.ltb_spec d radix); [now apply IH | lia].
Qed.

End Digits.

(** ** Prefixes and [BigInt] of a string *)

Section Prefixes.

Import Js.

Lemma removeHexPrefix_digits (s : string) :
  all isHexDigit s = true -> Encode.removeHexPrefix s = s.
Proof.
  destruct s as [| c0 [| c1 r]]; try reflexivity.
  cbn [all Encode.removeHexPrefix].
  intros [_ [H1 _]%andb_prop]%andb_prop.
  now rewrite (isHexDigit_not_x _ H1), andb_false_r.
Qed.

Lemma addHexPrefix_digits (s : string) :
  all isHexDigit s = true -> Encode.addHexPrefix s = "0x" ++ s.
Proof. intros H. unfold Encode.addHexPrefix. now rewrite removeHexPrefix_digits. Qed.

(** What [isHex] accepts: "0", then "x" or "X", then hex digits. *)
Lemma isHex_inv (hex : string) :
  isHex hex = true ->
  exists c1 ds,
    hex = String "0" (String c1 ds) /\
    ((c1 =? "x")%char || (c1 =? "X")%char) = true /\
    all isHexDigit ds = true.
Proof.
  destruct hex as [| c0 [| c1 ds]]; try discriminate. cbn [isHex].
  intros [[H0 H1]%andb_prop Hds]%andb_prop.
  apply Ascii.eqb_eq in H0 as ->. now exists c1, ds.
Qed.

Lemma removeHexPrefix_hex (c1 : ascii) (ds : string) :
  ((c1 =? "x")%char || (c1 =? "X")%char) = true ->
  Encode.removeHexPrefix (String "0" (String c1 ds)) = ds.
Proof. intros H. cbn [Encode.removeHexPrefix]. now rewrite H. Qed.

Lemma hex_notWhiteSpace (s : string) :
  all isHexDigit s = true -> all notWhiteSpace s = true.
Proof.
  apply all_impl. intros c Hc. unfold notWhiteSpace.
  now rewrite (isHexDigit_not_space _ Hc).
Qed.

Lemma x_notWhiteSpace (c : ascii) :
  ((c =? "x")%char || (c =? "X")%char) = true -> notWhiteSpace c = true.
Proof.
  intros [H | H]%orb_prop; apply Ascii.eqb_eq in H as ->; reflexivity.
Qed.

(** A hex literal with a digit at least reads as its digits in radix 16. *)
Lemma StringToBigInt_hex (c1 : ascii) (ds : string) :
  ((c1 =? "x")%char || (c1 =? "X")%char) = true ->
  all isHexDigit ds = true ->
  StringToBigInt (String "0" (String c1 ds)) = parseDigits 16 ds.
Proof.
  intros Hx Hds. unfold StringToBigInt. rewrite trim_id.
  - change ("0" =? "0")%char with true. now rewrite Hx.
  - cbn [all]. rewrite (x_notWhiteSpace _ Hx), (hex_notWhiteSpace _ Hds).
    reflexivity.
Qed.

Lemma hex_digit_value (c : ascii) :
  isHexDigit c = true -> exists d, digitValue c = Some d /\ 0 <= d < 16.
Proof.
  intros [d Hd]%isHexDigit_value. exists d. split; [exact Hd |].
  now apply digitValue_range in Hd.
Qed.

Lemma parseDigits_hex_total (ds : string) :
  ds <> "" -> all isHexDigit ds = true ->
  exists z, parseDigits 16 ds = Some z /\ parseAcc 16 ds 0 = Some z.
Proof.
  intros Hne Hds.
  destruct (parseAcc_total 16 isHexDigit ds 0 hex_digit_value Hds) as [z Hz].
  exists z. split; [| exact Hz]. destruct ds; [congruence | exact Hz].
Qed.

(** A whole-number string reads as its digits in radix 10. *)
Lemma StringToBigInt_whole (d : string) :
  isStringWholeNumber d = true ->
  exists z, StringToBigInt d = Some z /\ parseAcc 10 d 0 = Some z /\ 0 <= z.
Proof.
  intros Hd.
  assert (Hall : all isDecimalDigit d = true) by (now destruct d).
  destruct (parseAcc_total 10 isDecimalDigit d 0 isDecimalDigit_value Hall) as [z Hz].
  exists z. split; [| split; [exact Hz |]].
  - unfold StringToBigInt. rewrite trim_id.
    + destruct d as [| c0 [| c1 r]]; [discriminate | exact Hz |].
      cbn [all] in Hall.
      apply andb_prop in Hall as [H0 [H1 _]%andb_prop].
      destruct (isDecimalDigit_plain _ H1) as (-> & -> & -> & _).
      destruct (isDecimalDigit_plain _ H0) as (_ & _ & _ & -> & ->).
      rewrite !andb_false_r. exact Hz.
    + apply hex_notWhiteSpace. revert Hall. apply all_impl.
      intros c Hc. now apply isLowerHexDigit_hex, isDecimalDigit_lower.
  - now apply (parseAcc_ge 10 ltac:(lia) d 0 z).
Qed.

Lemma toString_nonneg (z radix : Z) : 0 <= z -> toString z radix = digits radix z.
Proof. intros Hz. unfold toString. destruct (Z.ltb_spec z 0); [lia | reflexivity]. Qed.

Lemma lower_hex (s : string) :
  all isLowerHexDigit s = true -> all isHexDigit s = true.
Proof. apply all_impl, isLowerHexDigit_hex. Qed.

Lemma zeros_lower (n : nat) : all isLowerHexDigit (zeros n) = true.
Proof. induction n as [| n IH]; [reflexivity | exact IH]. Qed.

Lemma zeros_length (n : nat) : String.length (zeros n) = n.
Proof. induction n as [| n IH]; [reflexivity | cbn; now rewrite IH]. Qed.

Lemma cycle_zero (n : nat) (cur : string) :
  cur = "" \/ cur = "0" -> cycle n "0" cur = zeros n.
Proof.
  revert cur. induction n as [| n IH]; intros cur Hcur; [reflexivity |].
  destruct Hcur as [-> | ->]; cbn [cycle zeros]; f_equal; apply IH; auto.
Qed.

Lemma padStart_zero (s : string) (target : nat) :
  padStart s target "0" = zeros (target - String.length s) ++ s.
Proof.
  unfold padStart. destruct (Nat.leb_spec target (String.length s)) as [Hle | Hgt].
  - now replace (target - String.length s)%nat with O by lia.
  - now rewrite cycle_zero by auto.
Qed.

End Prefixes.

(** ** [toStorageKey] and [toHex] *)

Section Hex.

Import Js.

(** C1.  For every numeric-like input that denotes a non-negative integer [z]
    of at most 256 bits, [toStorageKey] returns "0x" followed by 64 hex
    digits, 66 characters in all; the digits are the hex representation of
    [z] with zeros on its left up to 64 digits, and they read back as [z]. *)
Theorem toStorageKey_padded (n : BigNumberish) (z : Z) :
  toBigInt n = Ok z -> 0 <= z < 2 ^ 256 ->
  exists key : string,
    toStorageKey n = Ok ("0x" ++ key) /\
    key = zeros (64 - String.length (toString z 16)) ++ toString z 16 /\
    String.length key = 64%nat /\
    String.length ("0x" ++ key) = 66%nat /\
    all isLowerHexDigit key = true /\
    parseDigits 16 key = Some z.
Proof.
  intros Hn Hz.
  assert (Hr : 2 <= 16 <= 16) by lia.
  set (h := toString z 16).
  assert (Hh : h = digits 16 z) by (apply toString_nonneg; lia).
  assert (Hlen : (String.length h <= 64)%nat).
  { rewrite Hh. apply digits_length; [lia | | lia].
    change (16 ^ Z.of_nat 64) with (2 ^ 256). lia. }
  assert (Hlow : all isLowerHexDigit (zeros (64 - String.length h) ++ h) = true).
  { rewrite all_append, zeros_lower, Hh. apply digits_lower; lia. }
  assert (Hkey : String.length (zeros (64 - String.length h) ++ h) = 64%nat).
  { rewrite length_append, zeros_length. lia. }
  exists (zeros (64 - String.length h) ++ h). repeat split.
  - unfold toStorageKey. rewrite Hn. cbn [bind]. fold h.
    rewrite padStart_zero, addHexPrefix_digits; [reflexivity |].
    now apply lower_hex.
  - exact Hkey.
  - cbn [append String.length]. now rewrite Hkey.
  - exact Hlow.
  - unfold parseDigits.
    destruct (zeros (64 - String.length h) ++ h) eqn:E; [discriminate Hkey |].
    rewrite <- E, parseAcc_zeros, Hh by lia. apply digits_parseAcc; lia.
Qed.

Lemma toStorageKey_padded_witness :
  exists key : string,
    toStorageKey (BString "0x1f") = Ok ("0x" ++ key) /\
    key = zeros (64 - String.length (toString 31 16)) ++ toString 31 16 /\
    String.length key = 64%nat /\
    String.length ("0x" ++ key) = 66%nat /\
    all isLowerHexDigit key = true /\
    parseDigits 16 key = Some 31.
Proof.
  apply (toStorageKey_padded (BString "0x1f") 31); [reflexivity | lia].
Defined.

(** [toHex] on a value that denotes [z >= 0]: the prefix and the digits of
    [z] in radix 16. *)
Lemma toHex_nonneg (value : BigNumberish) (z : Z) :
  toBigInt value = Ok z -> 0 <= z ->
  toHex value = Ok ("0x" ++ digits 16 z) /\
  canonicalHex ("0x" ++ digits 16 z) = true /\
  parseDigits 16 (digits 16 z) = Some z.
Proof.
  intros Hv Hz.
  assert (Hr : 2 <= 16 <= 16) by lia.
  split; [| split].
  - unfold toHex. rewrite Hv. cbn [bind]. rewrite toString_nonneg by exact Hz.
    rewrite addHexPrefix_digits; [reflexivity |].
    apply lower_hex, digits_lower; lia.
  - cbn [append canonicalHex]. now rewrite digits_canonical.
  - now apply digits_parse.
Qed.





End Hex.

(** ** [addPercent] *)

Section Percent.

Import Js.

(** C3.  [addPercent(base, percent)] is [base + (base * percent) / 100], the
    quotient being exact on integers of any size and truncated towards zero
    ([Z.quot], not the floor [Z.div]); so 50% on 100 is 150, 100% on 100 is
    200, -100% on 200 is 0 and -150% on 200 is -100. *)
Theorem addPercent_truncates (base : BigNumberish) (b percent : Z) :
  toBigInt base = Ok b ->
  addPercent base (Int percent) = Ok (b + Z.quot (b * percent) 100) /\
  addPercent (BNumber (Int 100)) (Int 50) = Ok 150 /\
  addPercent (BNumber (Int 100)) (Int 100) = Ok 200 /\
  addPercent (BNumber (Int 200)) (Int (-100)) = Ok 0 /\
  addPercent (BNumber (Int 200)) (Int (-150)) = Ok (-100).
Proof.
  intros Hb. split; [| repeat split].
  unfold addPercent. unfold toBigInt in Hb. rewrite Hb. reflexivity.
Qed.

(** On 1 and -150% the truncated quotient is -1 and the result 0; the floor
    would be -2 and the result -1. *)
Lemma addPercent_truncates_witness :
  addPercent (BString "1") (Int (-150)) = Ok (1 + Z.quot (1 * (-150)) 100) /\
  addPercent (BNumber (Int 100)) (Int 50) = Ok 150 /\
  addPercent (BNumber (Int 100)) (Int 100) = Ok 200 /\
  addPercent (BNumber (Int 200)) (Int (-100)) = Ok 0 /\
  addPercent (BNumber (Int 200)) (Int (-150)) = Ok (-100).
Proof. apply (addPercent_truncates (BString "1") 1 (-150)). reflexivity. Defined.

Lemma addPercent_not_floor :
  addPercent (BString "1") (Int (-150)) = Ok 0 /\ 1 + (1 * (-150)) / 100 = -1.
Proof. split; reflexivity. Qed.

End Percent.

(** ** The round trip through [toHex] and [hexToDecimalString] *)

Section RoundTrip.

Import Js.

Lemma dropZeros_all (p : ascii -> bool) (d : string) :
  all p d = true -> all p (dropZeros d) = true.
Proof.
  induction d as [| c d IH]; [reflexivity |]. cbn [dropZeros].
  destruct (c =? "0")%char; [| auto].
  cbn [all]. intros [_ Hd]%andb_prop. now apply IH.
Qed.

Lemma dropZeros_head (d : string) : startsWithZero (dropZeros d) = false.
Proof.
  induction d as [| c d IH]; [reflexivity |]. cbn [dropZeros].
  destruct (c =? "0")%char eqn:E; [exact IH | exact E].
Qed.

Lemma normalizeDecimal_canonical (d : string) :
  all isDecimalDigit d = true -> canonicalDigits (normalizeDecimal d) = true.
Proof.
  intros Hd. unfold normalizeDecimal.
  pose proof (dropZeros_all _ d Hd) as Hall.
  pose proof (dropZeros_head d) as Hhead.
  destruct (dropZeros d) as [| c r]; [reflexivity |].
  unfold canonicalDigits. rewrite Hhead.
  rewrite (all_impl _ _ _ isDecimalDigit_lower Hall), orb_true_r. reflexivity.
Qed.

Lemma normalizeDecimal_value (d : string) :
  parseAcc 10 (normalizeDecimal d) 0 = parseAcc 10 d 0.
Proof.
  rewrite <- (parseAcc_dropZeros 10 ltac:(lia) d). unfold normalizeDecimal.
  now destruct (dropZeros d).
Qed.

(** C4.  For every whole-number string [d], [toHex] succeeds and
    [hexToDecimalString] of its result is the decimal string of the number
    [d] denotes, which is [d] without its leading zeros. *)
Theorem hexToDecimalString_toHex (d : string) :
  isStringWholeNumber d = true ->
  exists (z : Z) (h : string),
    toBigInt (BString d) = Ok z /\
    toHex (BString d) = Ok h /\
    hexToDecimalString h = Ok (toString z 10) /\
    toString z 10 = normalizeDecimal d.
Proof.
  intros Hd.
  assert (Hall : all isDecimalDigit d = true) by (now destruct d).
  destruct (StringToBigInt_whole d Hd) as (z & Hbig & Hparse & Hz).
  assert (Hdigits : all isHexDigit (digits 16 z) = true)
    by (apply lower_hex, digits_lower; lia).
  exists z, ("0x" ++ digits 16 z).
  assert (Hto : toBigInt (BString d) = Ok z)
    by (unfold toBigInt, BigInt; now rewrite Hbig).
  repeat split.
  - exact Hto.
  - unfold toHex. rewrite Hto. cbn [bind].
    now rewrite toString_nonneg, addHexPrefix_digits.
  - unfold hexToDecimalString, Encode.addHexPrefix.
    cbn [append]. rewrite removeHexPrefix_hex by reflexivity.
    unfold BigInt. cbn [append].
    rewrite StringToBigInt_hex by (reflexivity || assumption).
    now rewrite digits_parse by lia.
  - rewrite toString_nonneg by exact Hz.
    apply digits_unique; [lia | now apply normalizeDecimal_canonical |].
    now rewrite normalizeDecimal_value.
Qed.

Lemma hexToDecimalString_toHex_witness :
  exists (z : Z) (h : string),
    toBigInt (BString "0200") = Ok z /\
    toHex (BString "0200") = Ok h /\
    hexToDecimalString h = Ok (toString z 10) /\
    toString z 10 = normalizeDecimal "0200".
Proof. apply (hexToDecimalString_toHex "0200"). reflexivity. Defined.

Example hexToDecimalString_toHex_0200 :
  toHex (BString "0200") = Ok "0xc8" /\ hexToDecimalString "0xc8" = Ok "200".
Proof. split; reflexivity. Qed.

End RoundTrip.

(** ** [cleanHex] *)

Section CleanHex.

Import Js.

Lemma replaceLeadingZeros_prefix (ds : string) :
  replaceLeadingZeros (String "0" (String "x" ds)) = "0x" ++ dropZeros ds.
Proof.
  destruct ds as [| c r]; [reflexivity |].
  cbn [replaceLeadingZeros dropZeros].
  change (("0" =? "0")%char && ("x" =? "x")%char) with true. cbn [andb].
  now destruct (c =? "0")%char.
Qed.

Lemma toLowerCase_prefix (c1 : ascii) (ds : string) :
  ((c1 =? "x")%char || (c1 =? "X")%char) = true ->
  toLowerCase (String "0" (String c1 ds)) = String "0" (String "x" (toLowerCase ds)).
Proof.
  intros Hx. unfold toLowerCase. cbn [mapString].
  now rewrite (toLowerCaseChar_x _ Hx).
Qed.

Lemma parseAcc_toLowerCase (ds : string) (acc : Z) :
  all isHexDigit ds = true ->
  parseAcc 16 (toLowerCase ds) acc = parseAcc 16 ds acc.
Proof.
  unfold toLowerCase. revert acc.
  induction ds as [| c ds IH]; intros acc; [reflexivity |].
  cbn [all mapString parseAcc]. intros [Hc Hds]%andb_prop.
  rewrite (proj2 (toLowerCaseChar_hex _ Hc)).
  destruct (digitValue c) as [d |]; [| reflexivity].
  destruct (d <? 16); [now apply IH | reflexivity].
Qed.

(** C5, as the code has it.  For every hex string, [cleanHex] returns "0x"
    followed by the digits in lower case without any of their leading
    zeros: what follows the prefix does not start with "0" and denotes the
    same number.  No digit is kept for zero: nothing follows the prefix
    when every digit is "0". *)
Theorem cleanHex_strips (hex : string) :
  isHex hex = true ->
  exists (c1 : ascii) (ds : string),
    hex = String "0" (String c1 ds) /\
    cleanHex hex = "0x" ++ dropZeros (toLowerCase ds) /\
    all isLowerHexDigit (dropZeros (toLowerCase ds)) = true /\
    startsWithZero (dropZeros (toLowerCase ds)) = false /\
    parseAcc 16 (dropZeros (toLowerCase ds)) 0 = parseAcc 16 ds 0.
Proof.
  intros (c1 & ds & -> & Hx & Hds)%isHex_inv.
  exists c1, ds. repeat split.
  - unfold cleanHex. now rewrite toLowerCase_prefix, replaceLeadingZeros_prefix.
  - now apply dropZeros_all, toLowerCase_hex.
  - apply dropZeros_head.
  - rewrite parseAcc_dropZeros by lia. now apply parseAcc_toLowerCase.
Qed.

Lemma cleanHex_strips_witness :
  exists (c1 : ascii) (ds : string),
    "0x00023AB" = String "0" (String c1 ds) /\
    cleanHex "0x00023AB" = "0x" ++ dropZeros (toLowerCase ds) /\
    all isLowerHexDigit (dropZeros (toLowerCase ds)) = true /\
    startsWithZero (dropZeros (toLowerCase ds)) = false /\
    parseAcc 16 (dropZeros (toLowerCase ds)) 0 = parseAcc 16 ds 0.
Proof. apply (cleanHex_strips "0x00023AB"). reflexivity. Defined.

Example cleanHex_00023AB : cleanHex "0x00023AB" = "0x23ab".
Proof. reflexivity. Qed.

(** C5, as stated, fails on zero: the pattern takes every "0" after the
    prefix, the last one too, and an all-zero hex string cleans to "0x". *)
Lemma cleanHex_zero_keeps_no_digit :
  isHex "0x000" = true /\
  cleanHex "0x000" = "0x" /\
  cleanHex "0x000" <> "0x0" /\
  cleanHex "0x0" = "0x".
Proof. repeat split. discriminate. Qed.

Lemma toLowerCase_dropZeros (s : string) :
  toLowerCase s = s -> toLowerCase (dropZeros s) = dropZeros s.
Proof.
  unfold toLowerCase. induction s as [| c s IH]; [reflexivity |].
  cbn [mapString dropZeros]. intros [= Hc Hs].
  destruct (c =? "0")%char; [now apply IH |].
  cbn [mapString]. now rewrite Hc, Hs.
Qed.

Lemma toLowerCase_replaceLeadingZeros (s : string) :
  toLowerCase s = s -> toLowerCase (replaceLeadingZeros s) = replaceLeadingZeros s.
Proof.
  intros Hs. destruct s as [| c0 [| c1 [| c2 r]]]; try exact Hs.
  cbn [replaceLeadingZeros].
  destruct ((c0 =? "0")%char && (c1 =? "x")%char && (c2 =? "0")%char); [| exact Hs].
  unfold toLowerCase in *. cbn [mapString] in Hs. injection Hs as _ _ _ Hr.
  cbn [append mapString]. do 2 f_equal. now apply toLowerCase_dropZeros.
Qed.

Lemma replaceLeadingZeros_idem (s : string) :
  replaceLeadingZeros (replaceLeadingZeros s) = replaceLeadingZeros s.
Proof.
  destruct s as [| c0 [| c1 [| c2 r]]]; try reflexivity.
  cbn [replaceLeadingZeros].
  destruct ((c0 =? "0")%char && (c1 =? "x")%char && (c2 =? "0")%char) eqn:E.
  - cbn [append]. pose proof (dropZeros_head r) as Hhead.
    destruct (dropZeros r) as [| c r']; [reflexivity |].
    cbn [replaceLeadingZeros startsWithZero] in *.
    now rewrite Hhead, andb_false_r.
  - cbn [replaceLeadingZeros]. now rewrite E.
Qed.

(** Cleaning twice is cleaning once, on any string. *)
Lemma cleanHex_twice (s : string) : cleanHex (cleanHex s) = cleanHex s.
Proof.
  unfold cleanHex.
  rewrite toLowerCase_replaceLeadingZeros by apply toLowerCase_idem.
  apply replaceLeadingZeros_idem.
Qed.

(** C6.  [cleanHex] is idempotent: for every hex string [x],
    [cleanHex(cleanHex(x))] is [cleanHex(x)]. *)
Theorem cleanHex_idempotent (x : string) :
  isHex x = true -> cleanHex (cleanHex x) = cleanHex x.
Proof. intros _. apply cleanHex_twice. Qed.

Lemma cleanHex_idempotent_witness :
  cleanHex (cleanHex "0x00023AB") = cleanHex "0x00023AB".
Proof. apply (cleanHex_idempotent "0x00023AB"). reflexivity. Defined.

End CleanHex.

(** ** [hexToBytes] *)

Section Bytes.

Import Js.

Lemma decodes_pair (c1 c2 : ascii) (s : string) (bytes : list Z) :
  isHexDigit c1 = true -> isHexDigit c2 = true -> decodes s bytes ->
  exists b, decodes (String c1 (String c2 s)) (b :: bytes).
Proof.
  intros (n1 & H1 & R1)%hex_digit_value (n2 & H2 & R2)%hex_digit_value.
  intros (Hdec & Hlen & Hall & Hval).
  exists (n1 * 16 + n2). unfold decodes. repeat split.
  - cbn [Noble.decodePairs]. now rewrite H1, H2, Hdec.
  - cbn [List.length String.length Nat.div2]. now rewrite Hlen.
  - constructor; [lia | exact Hall].
  - intros acc. cbn [parseAcc]. rewrite H1, H2.
    destruct (Z.ltb_spec n1 16); [| lia]. destruct (Z.ltb_spec n2 16); [| lia].
    rewrite Hval. unfold bytesValue. cbn [fold_left]. do 2 f_equal. lia.
Qed.

(** Hex digits in even number always decode. *)
Lemma decodePairs_total (s : string) :
  all isHexDigit s = true ->
  (Nat.even (String.length s) = true -> exists bytes, decodes s bytes) /\
  (forall c, isHexDigit c = true -> Nat.odd (String.length s) = true ->
             exists bytes, decodes (String c s) bytes).
Proof.
  induction s as [| x s IH]; cbn [all].
  - intros _. split; [| discriminate].
    intros _. exists []. repeat split. constructor.
  - intros [Hx Hs]%andb_prop. destruct (IH Hs) as [IHeven IHodd]. split.
    + cbn [String.length]. rewrite Nat.even_succ. now apply IHodd.
    + intros c Hc. cbn [String.length]. rewrite Nat.odd_succ.
      intros [bytes Hb]%IHeven.
      destruct (decodes_pair c x s bytes Hc Hx Hb) as [b Hdec]. eauto.
Qed.

Lemma Noble_hexToBytes_even (s : string) (bytes : list Z) :
  Nat.even (String.length s) = true -> decodes s bytes ->
  Noble.hexToBytes s = Ok bytes.
Proof.
  intros He Hd. unfold Noble.hexToBytes.
  rewrite <- Nat.negb_even, He. apply Hd.
Qed.

Lemma padded_decodes (ds : string) :
  all isHexDigit ds = true ->
  Nat.even (String.length (padded ds)) = true /\
  exists bytes, decodes (padded ds) bytes.
Proof.
  intros Hds. unfold padded.
  destruct (decodePairs_total ds Hds) as [Heven Hodd].
  destruct (Nat.odd (String.length ds)) eqn:E.
  - split; [cbn [String.length]; now rewrite Nat.even_succ |].
    now apply Hodd.
  - rewrite <- Nat.negb_even in E. apply negb_false_iff in E. auto.
Qed.

Lemma hexToBytes_hex (c1 : ascii) (ds : string) :
  ((c1 =? "x")%char || (c1 =? "X")%char) = true ->
  all isHexDigit ds = true ->
  hexToBytes (String "0" (String c1 ds)) = Noble.hexToBytes (padded ds).
Proof.
  intros Hx Hds. unfold hexToBytes.
  replace (isHex (String "0" (String c1 ds))) with true
    by (cbn [isHex]; now rewrite Hx, Hds).
  cbn [negb]. rewrite removeHexPrefix_hex by exact Hx.
  now rewrite Nat.negb_even.
Qed.

(** C7.  [hexToBytes] throws exactly when its input is not a hex string, and
    what it throws then is the error that says so.  On a hex string it
    returns the bytes of the digits, with one zero nibble on their left
    when they are in odd number: a byte for every two digits, denoting the
    number the digits denote; so "0xa" decodes as "0x0a", and "0x64" to the
    single byte 100. *)
Theorem hexToBytes_format (str : string) :
  (isHex str = false <-> exists e, hexToBytes str = Throw e) /\
  (forall e, hexToBytes str = Throw e ->
             e = Error (str ++ " needs to be a hex-string")) /\
  (isHex str = true ->
   exists (c1 : ascii) (ds : string) (bytes : list Z),
     str = String "0" (String c1 ds) /\
     hexToBytes str = Ok bytes /\
     decodes (padded ds) bytes /\
     parseAcc 16 ds 0 = Some (bytesValue bytes 0) /\
     (Nat.odd (String.length ds) = true ->
      hexToBytes (String "0" (String c1 (String "0" ds))) = Ok bytes)) /\
  hexToBytes "0xa" = hexToBytes "0x0a" /\
  hexToBytes "0x64" = Ok [100].
Proof.
  assert (Hhex : isHex str = true ->
    exists (c1 : ascii) (ds : string) (bytes : list Z),
      str = String "0" (String c1 ds) /\
      hexToBytes str = Ok bytes /\
      decodes (padded ds) bytes /\
      parseAcc 16 ds 0 = Some (bytesValue bytes 0) /\
      (Nat.odd (String.length ds) = true ->
       hexToBytes (String "0" (String c1 (String "0" ds))) = Ok bytes)).
  { intros (c1 & ds & -> & Hx & Hds)%isHex_inv.
    destruct (padded_decodes ds Hds) as (Heven & bytes & Hdec).
    assert (Hrun : hexToBytes (String "0" (String c1 ds)) = Ok bytes)
      by (rewrite hexToBytes_hex by assumption; now apply Noble_hexToBytes_even).
    exists c1, ds, bytes.
    split; [reflexivity |]. split; [exact Hrun |]. split; [exact Hdec |]. split.
    - destruct Hdec as (_ & _ & _ & Hval). rewrite <- Hval. unfold padded.
      destruct (Nat.odd (String.length ds)); [| reflexivity].
      symmetry. apply (parseAcc_zeros 16 ltac:(lia) 1 ds).
    - intros Hodd. rewrite hexToBytes_hex by (cbn [all]; assumption).
      unfold padded in *. cbn [String.length].
      rewrite Nat.odd_succ, <- Nat.negb_odd. rewrite Hodd in *. cbn [negb].
      now apply Noble_hexToBytes_even. }
  split; [split |]; [| | split; [| split; [exact Hhex | split; reflexivity]]].
  - intros Hn. eexists. unfold hexToBytes. rewrite Hn. reflexivity.
  - intros [e He]. destruct (isHex str) eqn:E; [| reflexivity].
    destruct (Hhex eq_refl) as (_ & _ & bytes & _ & Hrun & _). congruence.
  - intros e He. destruct (isHex str) eqn:E.
    + destruct (Hhex eq_refl) as (_ & _ & bytes & _ & Hrun & _). congruence.
    + unfold hexToBytes in He. rewrite E in He. cbn [negb] in He. congruence.
Qed.

End Bytes.

(** ** [getDecimalString] and [getHexString] *)

Section GetString.

Import Js.

Lemma whole_not_hex (str : string) :
  isStringWholeNumber str = true -> isHex str = false.
Proof.
  destruct str as [| c0 [| c1 r]]; try reflexivity.
  cbn [isStringWholeNumber isHex all].
  intros [_ [H1 _]%andb_prop]%andb_prop.
  destruct (isDecimalDigit_plain _ H1) as (-> & _).
  now rewrite andb_false_r.
Qed.

Lemma BigInt_hex (c1 : ascii) (ds : string) :
  ((c1 =? "x")%char || (c1 =? "X")%char) = true ->
  all isHexDigit ds = true ->
  BigInt (BString (String "0" (String c1 ds))) =
  match parseDigits 16 ds with
  | Some z => Ok z
  | None => Throw SyntaxError
  end.
Proof. intros Hx Hds. unfold BigInt. now rewrite StringToBigInt_hex. Qed.

Lemma hexToDecimalString_hex (c1 : ascii) (ds : string) :
  ((c1 =? "x")%char || (c1 =? "X")%char) = true ->
  all isHexDigit ds = true ->
  hexToDecimalString (String "0" (String c1 ds)) =
  match parseDigits 16 ds with
  | Some z => Ok (toString z 10)
  | None => Throw SyntaxError
  end.
Proof.
  intros Hx Hds. unfold hexToDecimalString, Encode.addHexPrefix.
  rewrite removeHexPrefix_hex by exact Hx. cbn [append].
  rewrite BigInt_hex by (reflexivity || assumption).
  now destruct (parseDigits 16 ds).
Qed.

(** On a hex string, [getDecimalString] returns or raises SyntaxError: never
    an [Error]. *)
Lemma getDecimalString_hex (str : string) :
  isHex str = true ->
  (exists z, getDecimalString str = Ok (toString z 10)) \/
  getDecimalString str = Throw SyntaxError.
Proof.
  intros Hhex. unfold getDecimalString. rewrite Hhex.
  apply isHex_inv in Hhex as (c1 & ds & -> & Hx & Hds).
  rewrite hexToDecimalString_hex by assumption.
  destruct (parseDigits 16 ds) as [z |]; eauto.
Qed.

(** C8, as the code has it.  [getDecimalString] and [getHexString] raise the
    error "... needs to be a hex-string or whole-number-string" exactly when
    the string matches neither the hex pattern nor the whole-number
    pattern, and [getHexString] raises nothing else.  A hex string is
    returned as it is by [getHexString]; a whole-number string is returned
    as it is by [getDecimalString] and converted to canonical hex by
    [getHexString].  A hex string with one digit at least is converted by
    [getDecimalString] to the decimal string of the number it denotes;
    "0x1a" gives "26". *)
Theorem getString_format (str : string) :
  (isHex str = false /\ isStringWholeNumber str = false <->
   getDecimalString str = Throw (Error (neitherMessage str))) /\
  (isHex str = false /\ isStringWholeNumber str = false <->
   getHexString str = Throw (Error (neitherMessage str))) /\
  (forall e, getHexString str = Throw e -> e = Error (neitherMessage str)) /\
  (isHex str = true -> getHexString str = Ok str) /\
  (isStringWholeNumber str = true ->
   getDecimalString str = Ok str /\
   exists (z : Z) (ds : string),
     toBigInt (BString str) = Ok z /\
     getHexString str = Ok ("0x" ++ ds) /\
     canonicalHex ("0x" ++ ds) = true /\
     parseDigits 16 ds = Some z) /\
  (isHex str = true -> (2 < String.length str)%nat ->
   exists z : Z,
     toBigInt (BString str) = Ok z /\ 0 <= z /\
     getDecimalString str = Ok (toString z 10)) /\
  getDecimalString "0x1a" = Ok "26".
Proof.
  assert (Hwhole : isStringWholeNumber str = true ->
    getDecimalString str = Ok str /\
    exists (z : Z) (ds : string),
      toBigInt (BString str) = Ok z /\
      getHexString str = Ok ("0x" ++ ds) /\
      canonicalHex ("0x" ++ ds) = true /\
      parseDigits 16 ds = Some z).
  { intros Hw. pose proof (whole_not_hex str Hw) as Hn.
    unfold getDecimalString, getHexString. rewrite Hn, Hw.
    split; [reflexivity |].
    destruct (StringToBigInt_whole str Hw) as (z & Hbig & _ & Hz).
    assert (Hto : toBigInt (BString str) = Ok z)
      by (unfold toBigInt, BigInt; now rewrite Hbig).
    destruct (toHex_nonneg (BString str) z Hto Hz) as (Hhex & Hcan & Hval).
    exists z, (digits 16 z). auto. }
  split; [| split; [| split; [| split; [| split; [exact Hwhole | split]]]]].
  - split.
    + intros [Hn Hw]. unfold getDecimalString. now rewrite Hn, Hw.
    + intros Hthrow. destruct (isHex str) eqn:Hhex.
      * destruct (getDecimalString_hex str Hhex) as [[z Hz] | Hs]; congruence.
      * destruct (isStringWholeNumber str) eqn:Hw; [| auto].
        destruct (Hwhole eq_refl) as [Hok _]. congruence.
  - split.
    + intros [Hn Hw]. unfold getHexString. now rewrite Hn, Hw.
    + intros Hthrow. destruct (isHex str) eqn:Hhex.
      * unfold getHexString in Hthrow. rewrite Hhex in Hthrow. discriminate.
      * destruct (isStringWholeNumber str) eqn:Hw; [| auto].
        destruct (Hwhole eq_refl) as (_ & z & ds & _ & Hok & _). congruence.
  - intros e He. destruct (isHex str) eqn:Hhex.
    + unfold getHexString in He. rewrite Hhex in He. discriminate.
    + destruct (isStringWholeNumber str) eqn:Hw.
      * destruct (Hwhole eq_refl) as (_ & z & ds & _ & Hok & _). congruence.
      * unfold getHexString in He. rewrite Hhex, Hw in He. now injection He as <-.
  - intros Hhex. unfold getHexString. now rewrite Hhex.
  - intros Hhex Hlen. unfold getDecimalString, toBigInt. rewrite Hhex.
    apply isHex_inv in Hhex as (c1 & ds & -> & Hx & Hds).
    rewrite hexToDecimalString_hex, BigInt_hex by assumption.
    assert (Hne : ds <> "") by (intros ->; cbn in Hlen; lia).
    destruct (parseDigits_hex_total ds Hne Hds) as (z & -> & Hacc).
    exists z. repeat split.
    now apply (parseAcc_ge 16 ltac:(lia) ds 0 z).
  - reflexivity.
Qed.

(** C8, as stated, fails on the bare prefix: "0x" matches the hex pattern,
    and [getDecimalString] does not return there, the conversion raises
    SyntaxError. *)
Lemma getDecimalString_bare_prefix :
  isHex "0x" = true /\ getDecimalString "0x" = Throw SyntaxError.
Proof. split; reflexivity. Qed.

End GetString.

(** ** [assertInRange] *)

Section Range.

Import Js.

Lemma rangeMessage_label (label : string) :
  "Message not signable, " ++ ("invalid " ++ label ++ " length") ++ "." =
  "Message not signable, invalid " ++ label ++ " length.".
Proof.
  cbn [append]. do 30 f_equal.
  now rewrite append_assoc.
Qed.

Lemma assertInRange_run
    (value lower upper : BigNumberish) (inputName : option string) (v l u : Z) :
  BigInt value = Ok v -> BigInt lower = Ok l -> BigInt upper = Ok u ->
  assertInRange value lower upper inputName =
  assert ((l <=? v) && (v <=? u))
         ("Message not signable, "
          ++ (if (labelOf inputName =? "")%string then "invalid length"
              else "invalid " ++ labelOf inputName ++ " length")
          ++ ".").
Proof.
  intros Hv Hl Hu. unfold assertInRange. rewrite Hv, Hl, Hu. reflexivity.
Qed.

(** C9.  With [value], [lower] and [upper] denoting the integers [v], [l] and
    [u], [assertInRange] returns, with no effect, exactly when
    [l <= v <= u], and throws exactly when [v < l] or [u < v].  What it
    throws is an error whose message embeds the label it was given, or the
    phrase "invalid length" when it was given none (or an empty one). *)
Theorem assertInRange_bounds
    (value lower upper : BigNumberish) (inputName : option string) (v l u : Z) :
  BigInt value = Ok v -> BigInt lower = Ok l -> BigInt upper = Ok u ->
  (l <= v <= u <-> assertInRange value lower upper inputName = Ok tt) /\
  (v < l \/ u < v <-> exists e, assertInRange value lower upper inputName = Throw e) /\
  (forall e, assertInRange value lower upper inputName = Throw e ->
   exists message : string,
     e = Error message /\
     (labelOf inputName = "" ->
      message = "Message not signable, invalid length." /\
      embeds message "invalid length") /\
     (labelOf inputName <> "" ->
      message = "Message not signable, invalid " ++ labelOf inputName ++ " length." /\
      embeds message (labelOf inputName))).
Proof.
  intros Hv Hl Hu. rewrite (assertInRange_run _ _ _ _ v l u Hv Hl Hu).
  unfold assert.
  destruct ((l <=? v) && (v <=? u)) eqn:E.
  - apply andb_prop in E as [H1%Z.leb_le H2%Z.leb_le].
    split; [| split].
    + split; [reflexivity | lia].
    + split; [lia | intros [e He]; discriminate].
    + intros e He. discriminate.
  - assert (Hout : v < l \/ u < v).
    { apply andb_false_iff in E as [H%Z.leb_gt | H%Z.leb_gt]; lia. }
    split; [| split].
    + split; [lia | discriminate].
    + split; [eauto | auto].
    + intros e [= <-].
      destruct (String.eqb_spec (labelOf inputName) "") as [Heq | Hne].
      * exists "Message not signable, invalid length.".
        split; [reflexivity |]. split; [intros _ | congruence].
        split; [reflexivity |]. now exists "Message not signable, ", ".".
      * exists ("Message not signable, invalid " ++ labelOf inputName ++ " length.").
        split; [f_equal; apply rangeMessage_label |]. split; [congruence | intros _].
        split; [reflexivity |].
        now exists "Message not signable, invalid ", " length.".
Qed.

Lemma assertInRange_bounds_witness :
  (5 <= 25 <= 20 <->
   assertInRange (BNumber (Int 25)) (BNumber (Int 5)) (BNumber (Int 20)) (Some "value") = Ok tt) /\
  (25 < 5 \/ 20 < 25 <->
   exists e,
     assertInRange (BNumber (Int 25)) (BNumber (Int 5)) (BNumber (Int 20)) (Some "value") = Throw e) /\
  (forall e,
   assertInRange (BNumber (Int 25)) (BNumber (Int 5)) (BNumber (Int 20)) (Some "value") = Throw e ->
   exists message : string,
     e = Error message /\
     (labelOf (Some "value") = "" ->
      message = "Message not signable, invalid length." /\
      embeds message "invalid length") /\
     (labelOf (Some "value") <> "" ->
      message = "Message not signable, invalid " ++ labelOf (Some "value") ++ " length." /\
      embeds message (labelOf (Some "value")))).
Proof.
  apply (assertInRange_bounds (BNumber (Int 25)) (BNumber (Int 5)) (BNumber (Int 20))
           (Some "value") 25 5 20); reflexivity.
Defined.

Example assertInRange_25 :
  assertInRange (BNumber (Int 25)) (BNumber (Int 5)) (BNumber (Int 20)) (Some "value")
  = Throw (Error "Message not signable, invalid value length.").
Proof. reflexivity. Qed.

Example assertInRange_10 :
  assertInRange (BNumber (Int 10)) (BNumber (Int 5)) (BNumber (Int 20)) None = Ok tt.
Proof. reflexivity. Qed.

End Range.

(** ** [isBigNumberish] against [toBigInt] *)

Section Numberish.

Import Js.

(** C10.  The string "0x" matches the hex pattern, which asks for no digit,
    so [isBigNumberish] accepts it; yet [toBigInt] raises SyntaxError on it.
    Hence [isBigNumberish] being true of a string does not make [toBigInt]
    succeed on it. *)
Theorem isBigNumberish_not_enough :
  isHex "0x" = true /\
  isBigNumberish (toValue (BString "0x")) = true /\
  toBigInt (BString "0x") = Throw SyntaxError /\
  ~ (forall s : string,
       isBigNumberish (toValue (BString s)) = true ->
       exists z, toBigInt (BString s) = Ok z).
Proof.
  repeat split.
  intros H. destruct (H "0x" eq_refl) as [z Hz]. discriminate Hz.
Qed.

End Numberish.

(** * Further properties *)

(** ** More on digits *)

Section Positions.

Import Js.

Variable radix : Z.
Hypothesis radix_range : 2 <= radix <= 16.

(** The digits read after [acc] fill the positions below it. *)
Lemma parseAcc_bound (s : string) (acc v : Z) :
  0 <= acc -> parseAcc radix s acc = Some v ->
  acc * radix ^ Z.of_nat (String.length s) <= v
  < (acc + 1) * radix ^ Z.of_nat (String.length s).
Proof.
  revert acc. induction s as [| c s IH]; intros acc Hacc; cbn [parseAcc].
  - intros [= <-]. cbn [String.length Z.of_nat]. rewrite Z.pow_0_r. lia.
  - destruct (digitValue c) as [d |] eqn:Hc; [| discriminate].
    apply digitValue_range in Hc.
    destruct (Z.ltb_spec d radix) as [Hd | Hd]; [| discriminate].
    intros H%IH; [| nia].
    cbn [String.length]. rewrite Nat2Z.inj_succ, Z.pow_succ_r by lia.
    assert (0 < radix ^ Z.of_nat (String.length s)) by (apply Z.pow_pos_nonneg; lia).
    nia.
Qed.

End Positions.

Section MoreDigits.

Import Js.

Lemma digitsOf_decimal (fuel : nat) (n : Z) :
  0 <= n -> all isDecimalDigit (digitsOf 10 fuel n) = true.
Proof.
  revert n. induction fuel as [| f IH]; intros n Hn; [reflexivity |].
  cbn [digitsOf]. destruct (Z.ltb_spec n 10) as [Hlt | Hge].
  - cbn [all]. rewrite digitChar_decimal by lia. reflexivity.
  - rewrite all_append, IH by (apply Z.div_pos; lia).
    cbn [all]. rewrite digitChar_decimal; [reflexivity |].
    apply Z.mod_pos_bound. lia.
Qed.

(** The decimal digits of a number from 0 up are a whole-number string. *)
Lemma digits_whole (n : Z) : 0 <= n -> isStringWholeNumber (digits 10 n) = true.
Proof.
  intros Hn. unfold isStringWholeNumber.
  pose proof (digits_nonempty 10 n) as Hne.
  pose proof (digitsOf_decimal (S (Z.to_nat (Z.log2 n))) n Hn) as Hall.
  fold (digits 10 n) in Hall. now destruct (digits 10 n).
Qed.

Lemma decimal_notWhiteSpace (s : string) :
  all isDecimalDigit s = true -> all notWhiteSpace s = true.
Proof.
  intros H. apply hex_notWhiteSpace. revert H. apply all_impl.
  intros c Hc. now apply isLowerHexDigit_hex, isDecimalDigit_lower.
Qed.

(** [BigInt(z.toString(10))] is [z], whatever the sign. *)
Lemma StringToBigInt_toString (z : Z) : StringToBigInt (toString z 10) = Some z.
Proof.
  assert (Hr : 2 <= 10 <= 16) by lia.
  unfold toString. destruct (Z.ltb_spec z 0) as [Hneg | Hpos].
  - assert (Hall : all isDecimalDigit (digits 10 (- z)) = true)
      by (apply digitsOf_decimal; lia).
    pose proof (digits_nonempty 10 (- z)) as Hne.
    pose proof (digits_parse 10 Hr (- z) ltac:(lia)) as Hparse.
    unfold StringToBigInt. rewrite trim_id.
    + destruct (digits 10 (- z)) as [| c r] eqn:E; [congruence |].
      change (("-" =? "0")%char) with false. cbn [andb].
      change (("-" =? "-")%char) with true. cbv beta iota.
      rewrite Hparse. cbn [option_map]. f_equal. lia.
    + cbn [all]. now rewrite decimal_notWhiteSpace.
  - destruct (StringToBigInt_whole _ (digits_whole z Hpos)) as (v & -> & Hv & _).
    rewrite digits_parseAcc in Hv by lia. congruence.
Qed.

Lemma dropZeros_zeros (k : nat) (s : string) : dropZeros (zeros k ++ s) = dropZeros s.
Proof. induction k as [| k IH]; [reflexivity | exact IH]. Qed.

Lemma dropZeros_id (s : string) : startsWithZero s = false -> dropZeros s = s.
Proof.
  destruct s as [| c s]; [reflexivity |]. cbn [startsWithZero dropZeros].
  now intros ->.
Qed.

(** Lower-case hex digits without a leading zero are decided by the number
    they read as: nothing for zero, its digits otherwise. *)
Lemma stripped_unique (s : string) (z : Z) :
  all isLowerHexDigit s = true -> startsWithZero s = false ->
  parseAcc 16 s 0 = Some z ->
  s = if z =? 0 then "" else digits 16 z.
Proof.
  intros Hall Hhead Hparse.
  assert (Hr : 2 <= 16 <= 16) by lia.
  destruct s as [| c r].
  - cbn in Hparse. injection Hparse as <-. reflexivity.
  - pose proof (parseAcc_positive 16 Hr (String c r) z ltac:(discriminate) Hhead Hparse).
    destruct (Z.eqb_spec z 0); [lia |].
    symmetry. apply digits_unique; [lia | | exact Hparse].
    unfold canonicalDigits. rewrite Hall, Hhead.
    cbn [String.eqb negb andb]. now rewrite orb_true_r.
Qed.

End MoreDigits.

(** ** [toHex] and [toStorageKey], read back *)

Section ReadBack.

Import Js.

Lemma isHex_digits (ds : string) :
  all isHexDigit ds = true -> isHex ("0x" ++ ds) = true.
Proof. intros H. cbn [append isHex]. now rewrite H. Qed.

Lemma BigInt_digits (ds : string) (z : Z) :
  all isHexDigit ds = true -> parseDigits 16 ds = Some z ->
  BigInt (BString ("0x" ++ ds)) = Ok z.
Proof.
  intros Hds Hz. cbn [append].
  rewrite BigInt_hex by (reflexivity || assumption). now rewrite Hz.
Qed.

Lemma isBigNumberish_string (s : string) :
  isBigNumberish (toValue (BString s)) = isHex s || isStringWholeNumber s.
Proof. reflexivity. Qed.

(** [toHex] of a value that denotes a number from 0 up is a hex string that
    [isBigNumberish] accepts and [toBigInt] converts back to that number. *)
Theorem toHex_reads_back (value : BigNumberish) (z : Z) :
  toBigInt value = Ok z -> 0 <= z ->
  exists h : string,
    toHex value = Ok h /\
    isHex h = true /\
    isBigNumberish (toValue (BString h)) = true /\
    toBigInt (BString h) = Ok z.
Proof.
  intros Hv Hz.
  destruct (toHex_nonneg value z Hv Hz) as (Hrun & _ & Hparse).
  assert (Hds : all isHexDigit (digits 16 z) = true)
    by (apply lower_hex, digits_lower; lia).
  exists ("0x" ++ digits 16 z).
  assert (Hhex : isHex ("0x" ++ digits 16 z) = true) by now apply isHex_digits.
  split; [exact Hrun |]. split; [exact Hhex |]. split.
  - now rewrite isBigNumberish_string, Hhex.
  - now apply BigInt_digits.
Qed.

Lemma toHex_reads_back_witness :
  exists h : string,
    toHex (BNumber (Int 100)) = Ok h /\
    isHex h = true /\
    isBigNumberish (toValue (BString h)) = true /\
    toBigInt (BString h) = Ok 100.
Proof. apply (toHex_reads_back (BNumber (Int 100)) 100); [reflexivity | lia]. Defined.

(** [toHex] of a value that denotes a negative number puts the sign after
    the prefix: the result is no hex string, [isBigNumberish] refuses it and
    [toBigInt] raises SyntaxError on it. *)
Theorem toHex_negative (value : BigNumberish) (z : Z) :
  toBigInt value = Ok z -> z < 0 ->
  exists h : string,
    toHex value = Ok h /\
    h = "0x-" ++ digits 16 (- z) /\
    isHex h = false /\
    isBigNumberish (toValue (BString h)) = false /\
    toBigInt (BString h) = Throw SyntaxError.
Proof.
  intros Hv Hz.
  assert (Hr : 2 <= 16 <= 16) by lia.
  assert (Hds : all isHexDigit (digits 16 (- z)) = true)
    by (apply lower_hex, digits_lower; lia).
  exists ("0x-" ++ digits 16 (- z)).
  split; [| split; [reflexivity | split; [reflexivity | split; [reflexivity |]]]].
  - unfold toHex. rewrite Hv. cbn [bind]. unfold toString.
    destruct (Z.ltb_spec z 0); [| lia].
    pose proof (digits_nonempty 16 (- z)) as Hne.
    now destruct (digits 16 (- z)).
  - unfold toBigInt, BigInt, StringToBigInt. rewrite trim_id.
    + reflexivity.
    + cbn [append all]. now rewrite hex_notWhiteSpace.
Qed.

Lemma toHex_negative_witness :
  exists h : string,
    toHex (BBigInt (-255)) = Ok h /\
    h = "0x-" ++ digits 16 (- (-255)) /\
    isHex h = false /\
    isBigNumberish (toValue (BString h)) = false /\
    toBigInt (BString h) = Throw SyntaxError.
Proof. apply (toHex_negative (BBigInt (-255)) (-255)); [reflexivity | lia]. Defined.

(** [toStorageKey] on a value that denotes [z >= 0]: the zeros and the
    digits. *)
Lemma toStorageKey_nonneg (n : BigNumberish) (z : Z) :
  toBigInt n = Ok z -> 0 <= z ->
  toStorageKey n =
    Ok ("0x" ++ zeros (64 - String.length (digits 16 z)) ++ digits 16 z) /\
  all isLowerHexDigit (zeros (64 - String.length (digits 16 z)) ++ digits 16 z) = true /\
  parseAcc 16 (zeros (64 - String.length (digits 16 z)) ++ digits 16 z) 0 = Some z.
Proof.
  intros Hn Hz.
  assert (Hr : 2 <= 16 <= 16) by lia.
  assert (Hlow : all isLowerHexDigit
                   (zeros (64 - String.length (digits 16 z)) ++ digits 16 z) = true).
  { rewrite all_append, zeros_lower. apply digits_lower; lia. }
  split; [| split; [exact Hlow |]].
  - unfold toStorageKey. rewrite Hn. cbn [bind].
    rewrite toString_nonneg by exact Hz.
    rewrite padStart_zero, addHexPrefix_digits; [reflexivity |].
    now apply lower_hex.
  - rewrite parseAcc_zeros by lia. apply digits_parseAcc; lia.
Qed.

(** [toStorageKey] pads and never cuts: for a value that denotes [z >= 0]
    the digits after the prefix are 64 or, when [z] has more, as many as [z]
    has, and [toBigInt] converts the key back to [z]; from [2^256] up the
    key is longer than 66 characters. *)
Theorem toStorageKey_never_cuts (n : BigNumberish) (z : Z) :
  toBigInt n = Ok z -> 0 <= z ->
  exists key : string,
    toStorageKey n = Ok ("0x" ++ key) /\
    String.length key = Nat.max 64 (String.length (toString z 16)) /\
    toBigInt (BString ("0x" ++ key)) = Ok z /\
    (2 ^ 256 <= z -> (66 < String.length ("0x" ++ key))%nat).
Proof.
  intros Hn Hz.
  assert (Hr : 2 <= 16 <= 16) by lia.
  destruct (toStorageKey_nonneg n z Hn Hz) as (Hrun & Hlow & Hparse).
  rewrite toString_nonneg by exact Hz.
  set (key := zeros (64 - String.length (digits 16 z)) ++ digits 16 z) in *.
  assert (Hlen : String.length key = Nat.max 64 (String.length (digits 16 z))).
  { unfold key. rewrite length_append, zeros_length. lia. }
  clearbody key.
  exists key. split; [exact Hrun |]. split; [exact Hlen |]. split.
  - apply BigInt_digits; [now apply lower_hex |].
    unfold parseDigits. destruct key; [cbn [String.length] in Hlen; lia | exact Hparse].
  - intros Hbig. cbn [append String.length].
    pose proof (parseAcc_bound 16 Hr _ 0 z ltac:(lia) (digits_parseAcc 16 Hr z Hz)) as Hb.
    assert (64 < String.length (digits 16 z))%nat; [| lia].
    apply Nat2Z.inj_lt. apply (Z.pow_lt_mono_r_iff 16); [lia | lia |].
    change (16 ^ Z.of_nat 64) with (2 ^ 256). lia.
Qed.

Lemma toStorageKey_never_cuts_witness :
  exists key : string,
    toStorageKey (BBigInt (2 ^ 256)) = Ok ("0x" ++ key) /\
    String.length key = Nat.max 64 (String.length (toString (2 ^ 256) 16)) /\
    toBigInt (BString ("0x" ++ key)) = Ok (2 ^ 256) /\
    (2 ^ 256 <= 2 ^ 256 -> (66 < String.length ("0x" ++ key))%nat).
Proof.
  apply (toStorageKey_never_cuts (BBigInt (2 ^ 256)) (2 ^ 256)); [reflexivity | lia].
Defined.

(** A storage key is its own storage key: for a value that denotes a number
    from 0 up, [toStorageKey] of what [toStorageKey] returns is that same
    string. *)
Theorem toStorageKey_idempotent (n : BigNumberish) (z : Z) :
  toBigInt n = Ok z -> 0 <= z ->
  exists k : string, toStorageKey n = Ok k /\ toStorageKey (BString k) = Ok k.
Proof.
  intros Hn Hz.
  destruct (toStorageKey_nonneg n z Hn Hz) as (Hrun & Hlow & Hparse).
  eexists. split; [exact Hrun |].
  assert (Hback : toBigInt (BString
            ("0x" ++ zeros (64 - String.length (digits 16 z)) ++ digits 16 z)) = Ok z).
  { unfold toBigInt. apply BigInt_digits; [now apply lower_hex |].
    unfold parseDigits. pose proof (digits_nonempty 16 z) as Hne.
    destruct (zeros (64 - String.length (digits 16 z)) ++ digits 16 z) eqn:E;
      [| exact Hparse].
    destruct (zeros (64 - String.length (digits 16 z))); [contradiction | discriminate]. }
  now destruct (toStorageKey_nonneg _ z Hback Hz) as (-> & _).
Qed.

Lemma toStorageKey_idempotent_witness :
  exists k : string,
    toStorageKey (BString "31") = Ok k /\ toStorageKey (BString k) = Ok k.
Proof. apply (toStorageKey_idempotent (BString "31") 31); [reflexivity | lia]. Defined.

End ReadBack.

(** ** The storage-key pattern *)

Section StorageKey.

Import Js.

Lemma digitValue_octal (c : ascii) (d : Z) :
  digitValue c = Some d -> between 48 55 c = (d <? 8).
Proof.
  destruct c as [[] [] [] [] [] [] [] []]; intros H; vm_compute in H;
    try discriminate H; injection H as <-; reflexivity.
Qed.

(** [toStorageKey] on a value that denotes [z] with [0 <= z < 2^256] gives a
    string of the documented storage-key pattern exactly when [z < 2^251]:
    the padding alone does not keep the three bits above clear. *)
Theorem toStorageKey_pattern (n : BigNumberish) (z : Z) :
  toBigInt n = Ok z -> 0 <= z < 2 ^ 256 ->
  exists k : string,
    toStorageKey n = Ok k /\ (isStorageKey k = true <-> z < 2 ^ 251).
Proof.
  intros Hn Hz.
  assert (Hr : 2 <= 16 <= 16) by lia.
  destruct (toStorageKey_nonneg n z Hn ltac:(lia)) as (Hrun & Hlow & Hparse).
  assert (Hlen : (String.length (digits 16 z) <= 64)%nat).
  { apply digits_length; [lia | | lia].
    change (16 ^ Z.of_nat 64) with (2 ^ 256). lia. }
  set (key := zeros (64 - String.length (digits 16 z)) ++ digits 16 z) in *.
  assert (Hkey : String.length key = 64%nat).
  { unfold key. rewrite length_append, zeros_length. lia. }
  clearbody key. exists ("0x" ++ key). split; [exact Hrun |].
  destruct key as [| a [| b r]]; try discriminate Hkey.
  assert (Hr62 : String.length r = 62%nat) by (cbn [String.length] in Hkey; lia).
  cbn [all] in Hlow.
  apply andb_prop in Hlow as [Ha [Hb Hrest%lower_hex]%andb_prop].
  cbn [parseAcc] in Hparse.
  destruct (digitValue a) as [va |] eqn:Hva; [| discriminate].
  pose proof (digitValue_range _ _ Hva) as Rva.
  destruct (Z.ltb_spec va 16); [| lia].
  destruct (digitValue b) as [vb |] eqn:Hvb; [| discriminate].
  pose proof (digitValue_range _ _ Hvb) as Rvb.
  destruct (Z.ltb_spec vb 16); [| lia].
  apply (parseAcc_bound 16 Hr) in Hparse; [| lia].
  rewrite Hr62 in Hparse.
  cbn [append isStorageKey].
  change (("0" =? "0")%char && ("x" =? "x")%char) with true. cbn [andb].
  rewrite (digitValue_zero _ _ Hva), (digitValue_octal _ _ Hvb), Hrest, Hr62.
  change (62 <=? 62)%nat with true. rewrite !andb_true_r.
  change (2 ^ 251) with (8 * 16 ^ Z.of_nat 62).
  assert (Hp : 0 < 16 ^ Z.of_nat 62) by (apply Z.pow_pos_nonneg; lia).
  remember (16 ^ Z.of_nat 62) as p eqn:Ep. clear Ep.
  destruct (Z.eqb_spec va 0) as [-> | Hne]; destruct (Z.ltb_spec vb 8);
    cbn [andb]; split; try discriminate; try reflexivity; intros; nia.
Qed.

Lemma toStorageKey_pattern_witness :
  exists k : string,
    toStorageKey (BBigInt (2 ^ 251)) = Ok k /\
    (isStorageKey k = true <-> 2 ^ 251 < 2 ^ 251).
Proof.
  apply (toStorageKey_pattern (BBigInt (2 ^ 251)) (2 ^ 251)); [reflexivity | lia].
Defined.

End StorageKey.

(** ** [cleanHex] as a normal form *)

Section NormalForm.

Import Js.

Lemma cleanHex_hex (c1 : ascii) (ds : string) :
  ((c1 =? "x")%char || (c1 =? "X")%char) = true ->
  cleanHex (String "0" (String c1 ds)) = "0x" ++ dropZeros (toLowerCase ds).
Proof.
  intros Hx. unfold cleanHex.
  now rewrite toLowerCase_prefix, replaceLeadingZeros_prefix.
Qed.

(** What [cleanHex] leaves of a hex string with a digit at least: the prefix
    and the digits of the number, or the prefix alone for zero. *)
Lemma cleanHex_value (hex : string) :
  isHex hex = true -> (2 < String.length hex)%nat ->
  exists z : Z,
    0 <= z /\
    toBigInt (BString hex) = Ok z /\
    cleanHex hex = "0x" ++ (if z =? 0 then "" else digits 16 z).
Proof.
  intros (c1 & ds & -> & Hx & Hds)%isHex_inv Hlen.
  assert (Hr : 2 <= 16 <= 16) by lia.
  assert (Hne : ds <> "") by (intros ->; cbn in Hlen; lia).
  destruct (parseDigits_hex_total ds Hne Hds) as (z & Hz & Hacc).
  exists z. split; [now apply (parseAcc_ge 16 Hr ds 0 z) |]. split.
  - unfold toBigInt. rewrite BigInt_hex by assumption. now rewrite Hz.
  - rewrite cleanHex_hex by exact Hx. f_equal.
    apply stripped_unique.
    + now apply dropZeros_all, toLowerCase_hex.
    + apply dropZeros_head.
    + rewrite parseAcc_dropZeros by lia. now rewrite parseAcc_toLowerCase.
Qed.

(** On a hex string that denotes a number other than zero, [cleanHex] and
    [toHex] agree. *)
Theorem cleanHex_agrees_with_toHex (hex : string) (z : Z) :
  isHex hex = true -> toBigInt (BString hex) = Ok z -> z <> 0 ->
  toHex (BString hex) = Ok (cleanHex hex).
Proof.
  intros Hhex Hz Hne.
  assert (Hlen : (2 < String.length hex)%nat).
  { apply isHex_inv in Hhex as (c1 & ds & -> & Hx & Hds).
    unfold toBigInt in Hz. rewrite BigInt_hex in Hz by assumption.
    destruct ds; [discriminate Hz | cbn; lia]. }
  destruct (cleanHex_value hex Hhex Hlen) as (z' & Hpos & Hz' & ->).
  assert (z' = z) as -> by congruence.
  destruct (toHex_nonneg (BString hex) z Hz Hpos) as (-> & _).
  now destruct (Z.eqb_spec z 0).
Qed.

Lemma cleanHex_agrees_with_toHex_witness :
  toHex (BString "0x00023AB") = Ok (cleanHex "0x00023AB").
Proof.
  apply (cleanHex_agrees_with_toHex "0x00023AB" 9131); [reflexivity | reflexivity | lia].
Defined.

(** Two hex strings with a digit at least clean to the same string exactly
    when they denote the same number. *)
Theorem cleanHex_normal_form (x y : string) :
  isHex x = true -> isHex y = true ->
  (2 < String.length x)%nat -> (2 < String.length y)%nat ->
  (cleanHex x = cleanHex y <-> toBigInt (BString x) = toBigInt (BString y)).
Proof.
  intros Hx Hy Lx Ly.
  assert (Hr : 2 <= 16 <= 16) by lia.
  destruct (cleanHex_value x Hx Lx) as (zx & Px & -> & ->).
  destruct (cleanHex_value y Hy Ly) as (zy & Py & -> & ->).
  split.
  - intros [= H]. f_equal.
    destruct (Z.eqb_spec zx 0) as [-> | Nx]; destruct (Z.eqb_spec zy 0) as [-> | Ny].
    + reflexivity.
    + symmetry in H. now apply digits_nonempty in H.
    + now apply digits_nonempty in H.
    + pose proof (digits_parseAcc 16 Hr zx Px) as Ex.
      rewrite H, digits_parseAcc in Ex by lia. congruence.
  - now intros [= ->].
Qed.

Lemma cleanHex_normal_form_witness :
  cleanHex "0x00023AB" = cleanHex "0X23ab" <->
  toBigInt (BString "0x00023AB") = toBigInt (BString "0X23ab").
Proof.
  apply (cleanHex_normal_form "0x00023AB" "0X23ab"); try reflexivity; cbn; lia.
Defined.

Lemma cleanHex_lower_digits (ds : string) :
  all isLowerHexDigit ds = true -> cleanHex ("0x" ++ ds) = "0x" ++ dropZeros ds.
Proof.
  intros Hds. cbn [append]. rewrite cleanHex_hex by reflexivity.
  now rewrite toLowerCase_lower.
Qed.

(** Cleaning a storage key gives back the hex string: for a value that
    denotes a number above zero, [cleanHex] of [toStorageKey] is [toHex]. *)
Theorem cleanHex_toStorageKey (n : BigNumberish) (z : Z) :
  toBigInt n = Ok z -> 0 < z ->
  exists k h : string,
    toStorageKey n = Ok k /\ toHex n = Ok h /\ cleanHex k = h.
Proof.
  intros Hn Hz.
  assert (Hr : 2 <= 16 <= 16) by lia.
  destruct (toStorageKey_nonneg n z Hn ltac:(lia)) as (Hk & Hlow & _).
  destruct (toHex_nonneg n z Hn ltac:(lia)) as (Hh & _).
  eexists _, _. split; [exact Hk |]. split; [exact Hh |].
  rewrite cleanHex_lower_digits by exact Hlow.
  rewrite dropZeros_zeros, dropZeros_id; [reflexivity |].
  now apply digits_head.
Qed.

Lemma cleanHex_toStorageKey_witness :
  exists k h : string,
    toStorageKey (BString "31") = Ok k /\ toHex (BString "31") = Ok h /\ cleanHex k = h.
Proof. apply (cleanHex_toStorageKey (BString "31") 31); [reflexivity | lia]. Defined.

End NormalForm.

(** ** Strings in and out of the converters *)

Section Converters.

Import Js.

Lemma parseDigits_parseAcc (radix : Z) (ds : string) (z : Z) :
  parseDigits radix ds = Some z -> ds <> "" /\ parseAcc radix ds 0 = Some z.
Proof. destruct ds; [discriminate |]. intros H. split; [discriminate | exact H]. Qed.

Lemma toBigInt_toString (z : Z) : toBigInt (BString (toString z 10)) = Ok z.
Proof. unfold toBigInt, BigInt. now rewrite StringToBigInt_toString. Qed.

(** A hex string with a digit at least denotes a number from 0 up, and
    [hexToDecimalString] writes that number. *)
Lemma hexToDecimalString_value (hex : string) :
  isHex hex = true -> (2 < String.length hex)%nat ->
  exists z : Z,
    0 <= z /\
    toBigInt (BString hex) = Ok z /\
    hexToDecimalString hex = Ok (toString z 10).
Proof.
  intros (c1 & ds & -> & Hx & Hds)%isHex_inv Hlen.
  assert (Hne : ds <> "") by (intros ->; cbn in Hlen; lia).
  destruct (parseDigits_hex_total ds Hne Hds) as (z & Hz & Hacc).
  exists z. split; [now apply (parseAcc_ge 16 ltac:(lia) ds 0 z) |].
  unfold toBigInt. rewrite BigInt_hex, hexToDecimalString_hex by assumption.
  now rewrite Hz.
Qed.

(** The prefix is optional for [hexToDecimalString]: on hex digits, one at
    least, it returns the same whole-number string with and without "0x" in
    front, the decimal digits of the number the hex digits denote. *)
Theorem hexToDecimalString_prefix_optional (ds : string) :
  ds <> "" -> all isHexDigit ds = true ->
  exists z : Z,
    parseDigits 16 ds = Some z /\
    hexToDecimalString ds = Ok (toString z 10) /\
    hexToDecimalString ("0x" ++ ds) = Ok (toString z 10) /\
    isStringWholeNumber (toString z 10) = true.
Proof.
  intros Hne Hds.
  destruct (parseDigits_hex_total ds Hne Hds) as (z & Hz & Hacc).
  pose proof (parseAcc_ge 16 ltac:(lia) ds 0 z ltac:(lia) Hacc) as Hpos.
  exists z. split; [exact Hz |]. split; [| split].
  - unfold hexToDecimalString. rewrite addHexPrefix_digits by exact Hds.
    now rewrite (BigInt_digits ds z).
  - cbn [append]. rewrite hexToDecimalString_hex by (reflexivity || assumption).
    now rewrite Hz.
  - rewrite toString_nonneg by exact Hpos. now apply digits_whole.
Qed.

Lemma hexToDecimalString_prefix_optional_witness :
  exists z : Z,
    parseDigits 16 "c8" = Some z /\
    hexToDecimalString "c8" = Ok (toString z 10) /\
    hexToDecimalString ("0x" ++ "c8") = Ok (toString z 10) /\
    isStringWholeNumber (toString z 10) = true.
Proof.
  apply (hexToDecimalString_prefix_optional "c8"); [discriminate | reflexivity].
Defined.

Lemma getHexString_ok (str h : string) :
  getHexString str = Ok h ->
  isHex h = true /\ toBigInt (BString h) = toBigInt (BString str).
Proof.
  unfold getHexString. destruct (isHex str) eqn:Hhex.
  - intros [= <-]. auto.
  - destruct (isStringWholeNumber str) eqn:Hw; [| discriminate].
    destruct (StringToBigInt_whole str Hw) as (z & Hbig & _ & Hz).
    assert (Hto : toBigInt (BString str) = Ok z)
      by (unfold toBigInt, BigInt; now rewrite Hbig).
    destruct (toHex_nonneg (BString str) z Hto Hz) as (Hrun & _ & Hparse).
    unfold toHexString. rewrite Hrun. intros Heq.
    assert (h = "0x" ++ digits 16 z) as -> by congruence. clear Heq.
    assert (Hds : all isHexDigit (digits 16 z) = true)
      by (apply lower_hex, digits_lower; lia).
    split; [now apply isHex_digits |].
    rewrite Hto. unfold toBigInt. now apply BigInt_digits.
Qed.

(** What [getHexString] returns is a hex string, which [getHexString] then
    leaves as it is, and it denotes what the input denotes. *)
Theorem getHexString_output (str h : string) :
  getHexString str = Ok h ->
  isHex h = true /\
  getHexString h = Ok h /\
  toBigInt (BString h) = toBigInt (BString str).
Proof.
  intros Hrun. destruct (getHexString_ok str h Hrun) as [Hh Hsame].
  split; [exact Hh |]. split; [| exact Hsame].
  unfold getHexString. now rewrite Hh.
Qed.

Lemma getHexString_output_witness :
  isHex "0x7b" = true /\
  getHexString "0x7b" = Ok "0x7b" /\
  toBigInt (BString "0x7b") = toBigInt (BString "123").
Proof. apply (getHexString_output "123" "0x7b"). reflexivity. Defined.

(** What [getDecimalString] returns is a whole-number string, which
    [getDecimalString] then leaves as it is, and it denotes what the input
    denotes. *)
Theorem getDecimalString_output (str d : string) :
  getDecimalString str = Ok d ->
  isStringWholeNumber d = true /\
  getDecimalString d = Ok d /\
  toBigInt (BString d) = toBigInt (BString str).
Proof.
  assert (Hkeep : forall w, isStringWholeNumber w = true -> getDecimalString w = Ok w).
  { intros w Hw. unfold getDecimalString. now rewrite (whole_not_hex w Hw), Hw. }
  unfold getDecimalString at 1. destruct (isHex str) eqn:Hhex.
  - apply isHex_inv in Hhex as (c1 & ds & -> & Hx & Hds).
    rewrite hexToDecimalString_hex by assumption.
    destruct (parseDigits 16 ds) as [z |] eqn:Hz; [| discriminate].
    intros [= <-].
    destruct (parseDigits_parseAcc _ _ _ Hz) as [_ Hacc].
    pose proof (parseAcc_ge 16 ltac:(lia) ds 0 z ltac:(lia) Hacc) as Hpos.
    assert (Hw : isStringWholeNumber (toString z 10) = true)
      by (rewrite toString_nonneg by exact Hpos; now apply digits_whole).
    split; [exact Hw |]. split; [now apply Hkeep |].
    rewrite toBigInt_toString. unfold toBigInt.
    rewrite BigInt_hex by assumption. now rewrite Hz.
  - destruct (isStringWholeNumber str) eqn:Hw; [| discriminate].
    intros [= <-]. auto.
Qed.

Lemma getDecimalString_output_witness :
  isStringWholeNumber "26" = true /\
  getDecimalString "26" = Ok "26" /\
  toBigInt (BString "26") = toBigInt (BString "0x1a").
Proof. apply (getDecimalString_output "0x1a" "26"). reflexivity. Defined.

(** Back from decimal: for a hex string with a digit at least, [toHex] of
    what [hexToDecimalString] returns is [toHex] of the hex string. *)
Theorem toHex_hexToDecimalString (hex : string) :
  isHex hex = true -> (2 < String.length hex)%nat ->
  exists d h : string,
    hexToDecimalString hex = Ok d /\
    toHex (BString d) = Ok h /\
    toHex (BString hex) = Ok h.
Proof.
  intros Hhex Hlen.
  destruct (hexToDecimalString_value hex Hhex Hlen) as (z & Hz & Hto & Hrun).
  destruct (toHex_nonneg (BString hex) z Hto Hz) as (Hh & _).
  destruct (toHex_nonneg (BString (toString z 10)) z (toBigInt_toString z) Hz) as (Hd & _).
  eauto.
Qed.

Lemma toHex_hexToDecimalString_witness :
  exists d h : string,
    hexToDecimalString "0x00C8" = Ok d /\
    toHex (BString d) = Ok h /\
    toHex (BString "0x00C8") = Ok h.
Proof. apply (toHex_hexToDecimalString "0x00C8"); [reflexivity | cbn; lia]. Defined.

(** A string [isBigNumberish] accepts converts, to a number from 0 up,
    unless it is the bare prefix: "0x" and "0X" are the only strings it
    accepts that [toBigInt] refuses. *)
Theorem isBigNumberish_converts (s : string) :
  isBigNumberish (toValue (BString s)) = true ->
  ((exists z, toBigInt (BString s) = Ok z /\ 0 <= z) <-> s <> "0x" /\ s <> "0X").
Proof.
  rewrite isBigNumberish_string. intros [Hhex | Hw]%orb_prop.
  - pose proof Hhex as (c1 & ds & -> & Hx & Hds)%isHex_inv.
    destruct ds as [| c ds'].
    + split.
      * intros (z & Hz & _). unfold toBigInt in Hz.
        rewrite BigInt_hex in Hz by assumption. discriminate Hz.
      * intros [N1 N2]. exfalso.
        apply orb_prop in Hx as [H | H]; apply Ascii.eqb_eq in H; subst c1; congruence.
    + split; [intros _; split; discriminate |]. intros _.
      destruct (hexToDecimalString_value _ Hhex ltac:(cbn; lia)) as (z & Hz & Hto & _).
      eauto.
  - split.
    + intros _. split; intros ->; discriminate Hw.
    + intros _. destruct (StringToBigInt_whole s Hw) as (z & Hbig & _ & Hz).
      exists z. split; [| exact Hz]. unfold toBigInt, BigInt. now rewrite Hbig.
Qed.

Lemma isBigNumberish_converts_witness :
  (exists z, toBigInt (BString "0x1a") = Ok z /\ 0 <= z) <->
  "0x1a" <> "0x" /\ "0x1a" <> "0X".
Proof. apply (isBigNumberish_converts "0x1a"). reflexivity. Defined.

End Converters.

(** ** Numbers to bytes *)

Section NumberBytes.

Import Js.

Lemma decodePairs_head (a c : ascii) (r : string) (bytes : list Z) :
  Noble.decodePairs (String a (String c r)) = Ok bytes ->
  exists va vc rest,
    digitValue a = Some va /\ digitValue c = Some vc /\ bytes = va * 16 + vc :: rest.
Proof.
  cbn [Noble.decodePairs].
  destruct (digitValue a) as [va |]; [| discriminate].
  destruct (digitValue c) as [vc |]; [| discriminate].
  destruct (Noble.decodePairs r) as [rest |]; [| discriminate].
  cbn [bind]. intros [= <-]. now exists va, vc, rest.
Qed.

Lemma padded_value (ds : string) : parseAcc 16 (padded ds) 0 = parseAcc 16 ds 0.
Proof.
  unfold padded. destruct (Nat.odd (String.length ds)); [| reflexivity].
  apply (parseAcc_zeros 16 ltac:(lia) 1 ds).
Qed.

Lemma pow256 (k : nat) : 256 ^ Z.of_nat k = 16 ^ Z.of_nat (2 * k).
Proof.
  rewrite Nat2Z.inj_mul, Z.pow_mul_r by lia. reflexivity.
Qed.

Lemma padded_length (ds : string) :
  String.length (padded ds) = (2 * Nat.div2 (S (String.length ds)))%nat.
Proof.
  unfold padded. destruct (Nat.odd (String.length ds)) eqn:E.
  - apply Nat.odd_spec in E as [m Hm]. cbn [String.length]. rewrite Hm.
    replace (S (2 * m + 1)) with (2 * S m)%nat by lia.
    now rewrite Nat.div2_double.
  - rewrite <- Nat.negb_even in E. apply negb_false_iff, Nat.even_spec in E as [m Hm].
    rewrite Hm. now rewrite Nat.div2_succ_double.
Qed.

(** The bytes of a number from 0 up, through its hex digits: they denote the
    number, there is one at least, and no more than the number needs. *)
Lemma bytes_of_number (z : Z) :
  0 <= z ->
  exists bytes : list Z,
    hexToBytes ("0x" ++ digits 16 z) = Ok bytes /\
    bytesValue bytes 0 = z /\
    Forall isByte bytes /\
    (1 <= List.length bytes)%nat /\
    (0 < z -> hd 0 bytes <> 0) /\
    forall k : nat, (1 <= k)%nat ->
      ((List.length bytes <= k)%nat <-> z < 256 ^ Z.of_nat k).
Proof.
  intros Hz.
  assert (Hr : 2 <= 16 <= 16) by lia.
  assert (Hds : all isHexDigit (digits 16 z) = true)
    by (apply lower_hex, digits_lower; lia).
  destruct (padded_decodes (digits 16 z) Hds) as (Heven & bytes & Hdec).
  pose proof Hdec as (Hpairs & Hlen & Hall & Hval).
  exists bytes. split; [| split; [| split; [exact Hall | split; [| split]]]].
  - cbn [append]. rewrite hexToBytes_hex by (reflexivity || assumption).
    now apply Noble_hexToBytes_even.
  - specialize (Hval 0). rewrite padded_value, digits_parseAcc in Hval by lia.
    congruence.
  - rewrite Hlen, padded_length, Nat.div2_double.
    pose proof (digits_nonempty 16 z) as Hne.
    destruct (digits 16 z); [congruence |]. cbn [String.length Nat.div2].
    apply le_n_S, Nat.le_0_l.
  - intros Hpos. pose proof (digits_head 16 Hr z Hpos) as Hhead.
    pose proof (digits_nonempty 16 z) as Hne.
    unfold padded in Hpairs.
    destruct (digits 16 z) as [| a r] eqn:E; [congruence |].
    cbn [startsWithZero] in Hhead.
    destruct (Nat.odd (String.length (String a r))) eqn:Hodd.
    + apply decodePairs_head in Hpairs as (v0 & va & rest & H0 & Ha & ->).
      injection H0 as <-. rewrite (digitValue_zero _ _ Ha) in Hhead.
      apply Z.eqb_neq in Hhead. cbn [hd]. lia.
    + destruct r as [| c r]; [discriminate Hodd |].
      apply decodePairs_head in Hpairs as (va & vc & rest & Ha & Hc & ->).
      rewrite (digitValue_zero _ _ Ha) in Hhead. apply Z.eqb_neq in Hhead.
      apply digitValue_range in Ha, Hc. cbn [hd]. lia.
  - intros k Hk. rewrite Hlen, padded_length, Nat.div2_double, pow256.
    pose proof (parseAcc_bound 16 Hr _ 0 z ltac:(lia) (digits_parseAcc 16 Hr z Hz)) as Hb.
    pose proof (digits_nonempty 16 z) as Hne.
    set (len := String.length (digits 16 z)) in *.
    assert (Hlen1 : (1 <= len)%nat).
    { unfold len. destruct (digits 16 z); [congruence | cbn; lia]. }
    assert (Hdiv : (Nat.div2 (S len) <= k <-> len <= 2 * k)%nat).
    { rewrite Nat.div2_div.
      pose proof (Nat.div_mod_eq (S len) 2).
      pose proof (Nat.mod_upper_bound (S len) 2). lia. }
    rewrite Hdiv. split.
    + intros Hle. apply Z.lt_le_trans with (16 ^ Z.of_nat len); [lia |].
      apply Z.pow_le_mono_r; lia.
    + intros Hlt. unfold len. apply digits_length; lia.
Qed.

(** [hexToBytes] of [toHex]: for a value that denotes [z >= 0], the bytes
    denote [z], most significant first; there is one at least, the first
    is not zero unless [z] is, and for every [k >= 1] there are [k] or
    fewer exactly when [z < 256^k]. *)
Theorem hexToBytes_toHex (value : BigNumberish) (z : Z) :
  toBigInt value = Ok z -> 0 <= z ->
  exists (h : string) (bytes : list Z),
    toHex value = Ok h /\
    hexToBytes h = Ok bytes /\
    bytesValue bytes 0 = z /\
    Forall isByte bytes /\
    (1 <= List.length bytes)%nat /\
    (0 < z -> hd 0 bytes <> 0) /\
    forall k : nat, (1 <= k)%nat ->
      ((List.length bytes <= k)%nat <-> z < 256 ^ Z.of_nat k).
Proof.
  intros Hv Hz.
  destruct (toHex_nonneg value z Hv Hz) as (Hh & _).
  destruct (bytes_of_number z Hz) as (bytes & Hb).
  now exists ("0x" ++ digits 16 z), bytes.
Qed.

Lemma hexToBytes_toHex_witness :
  exists (h : string) (bytes : list Z),
    toHex (BString "43981") = Ok h /\
    hexToBytes h = Ok bytes /\
    bytesValue bytes 0 = 43981 /\
    Forall isByte bytes /\
    (1 <= List.length bytes)%nat /\
    (0 < 43981 -> hd 0 bytes <> 0) /\
    forall k : nat, (1 <= k)%nat ->
      ((List.length bytes <= k)%nat <-> 43981 < 256 ^ Z.of_nat k).
Proof. apply (hexToBytes_toHex (BString "43981") 43981); [reflexivity | lia]. Defined.

(** *** [stringToSha256ToArrayBuff4] *)

Lemma buf2hex_acc (buffer : list Z) (acc : string) :
  fold_left (fun r x => r ++ padStart (toString x 16) 2 "0") buffer acc =
  acc ++ buf2hex buffer.
Proof.
  unfold buf2hex. revert acc.
  induction buffer as [| x l IH]; intros acc; cbn [fold_left].
  - now rewrite append_empty_r.
  - rewrite IH, (IH ("" ++ _)). cbn [append]. now rewrite append_assoc.
Qed.

Lemma buf2hex_cons (x : Z) (l : list Z) :
  buf2hex (x :: l) = padStart (toString x 16) 2 "0" ++ buf2hex l.
Proof. unfold buf2hex at 1. cbn [fold_left]. now rewrite buf2hex_acc. Qed.

(** A byte is written as its two hex digits. *)
Lemma byte_two_digits (x : Z) :
  isByte x ->
  padStart (toString x 16) 2 "0" =
  String (digitChar (x / 16)) (String (digitChar (x mod 16)) "").
Proof.
  intros Hx.
  assert (Hall : forallb
            (fun n => let b := Z.of_nat n in
               (padStart (toString b 16) 2 "0"
                =? String (digitChar (b / 16)) (String (digitChar (b mod 16)) ""))%string)
            (seq 0 256) = true) by (vm_compute; reflexivity).
  rewrite forallb_forall in Hall.
  specialize (Hall (Z.to_nat x)). cbv zeta in Hall.
  rewrite Z2Nat.id in Hall by (unfold isByte in Hx; lia).
  apply String.eqb_eq, Hall, in_seq. unfold isByte in Hx. lia.
Qed.

Lemma buf2hex_parse (buffer : list Z) (acc : Z) :
  Forall isByte buffer ->
  parseAcc 16 (buf2hex buffer) acc = Some (bytesValue buffer acc).
Proof.
  intros Hall. revert acc.
  induction Hall as [| x l Hx Hl IH]; intros acc; [reflexivity |].
  rewrite buf2hex_cons, (byte_two_digits x Hx). cbn [append parseAcc].
  unfold isByte in Hx.
  assert (0 <= x / 16 < 16)
    by (split; [apply Z.div_pos | apply Z.div_lt_upper_bound]; lia).
  pose proof (Z.mod_pos_bound x 16 ltac:(lia)).
  rewrite !digitValue_digitChar by lia.
  destruct (Z.ltb_spec (x / 16) 16); [| lia].
  destruct (Z.ltb_spec (x mod 16) 16); [| lia].
  rewrite IH. unfold bytesValue. cbn [fold_left]. do 2 f_equal.
  pose proof (Z.div_mod x 16). lia.
Qed.

Lemma buf2hex_digits (buffer : list Z) :
  Forall isByte buffer -> all isHexDigit (buf2hex buffer) = true.
Proof.
  induction 1 as [| x l Hx Hl IH]; [reflexivity |].
  rewrite buf2hex_cons, (byte_two_digits x Hx). cbn [append all].
  unfold isByte in Hx.
  assert (0 <= x / 16 < 16)
    by (split; [apply Z.div_pos | apply Z.div_lt_upper_bound]; lia).
  pose proof (Z.mod_pos_bound x 16 ltac:(lia)).
  now rewrite !isLowerHexDigit_hex, IH by (apply digitChar_lower; lia).
Qed.

Lemma buf2hex_nonempty (buffer : list Z) :
  Forall isByte buffer -> buffer <> [] -> buf2hex buffer <> "".
Proof.
  intros Hall Hne. destruct Hall as [| x l Hx Hl]; [congruence |].
  now rewrite buf2hex_cons, (byte_two_digits x Hx).
Qed.

(** Whatever bytes the digest has, one at least, [stringToSha256ToArrayBuff4]
    returns the bytes of the digest's number modulo [2^31]: from one to four
    of them, the first not zero unless the number is, and for every
    [k >= 1], [k] or fewer exactly when the number is below [256^k].  So
    four bytes come out only when bit 24 or above is set in the low 31 bits
    of the digest. *)
Theorem stringToSha256ToArrayBuff4_bytes (sha256 : string -> list Z) (str : string) :
  sha256 str <> [] -> Forall isByte (sha256 str) ->
  exists bytes : list Z,
    stringToSha256ToArrayBuff4 sha256 str = Ok bytes /\
    bytesValue bytes 0 = bytesValue (sha256 str) 0 mod 2 ^ 31 /\
    Forall isByte bytes /\
    (1 <= List.length bytes <= 4)%nat /\
    (0 < bytesValue (sha256 str) 0 mod 2 ^ 31 -> hd 0 bytes <> 0) /\
    forall k : nat, (1 <= k)%nat ->
      ((List.length bytes <= k)%nat <->
       bytesValue (sha256 str) 0 mod 2 ^ 31 < 256 ^ Z.of_nat k).
Proof.
  intros Hne Hall.
  set (n := bytesValue (sha256 str) 0).
  assert (Hmask : Z.land n MASK_31 = n mod 2 ^ 31).
  { unfold MASK_31. change (2 ^ 31 - 1) with (Z.ones 31). apply Z.land_ones. lia. }
  pose proof (Z.mod_pos_bound n (2 ^ 31) ltac:(lia)) as Hm.
  destruct (bytes_of_number (n mod 2 ^ 31) ltac:(lia))
    as (bytes & Hrun & Hval & Hbytes & Hone & Hhd & Hk).
  exists bytes.
  assert (Hgo : stringToSha256ToArrayBuff4 sha256 str = Ok bytes).
  { unfold stringToSha256ToArrayBuff4.
    rewrite addHexPrefix_digits by now apply buf2hex_digits.
    assert (Hparse : parseDigits 16 (buf2hex (sha256 str)) = Some n).
    { unfold parseDigits.
      pose proof (buf2hex_nonempty _ Hall Hne).
      pose proof (buf2hex_parse _ 0 Hall).
      now destruct (buf2hex (sha256 str)). }
    rewrite (BigInt_digits _ n (buf2hex_digits _ Hall) Hparse).
    cbn [bind]. rewrite Hmask.
    destruct (toHex_nonneg (BNumber (Int (n mod 2 ^ 31))) (n mod 2 ^ 31) eq_refl
                ltac:(lia)) as (-> & _).
    exact Hrun. }
  split; [exact Hgo |]. split; [exact Hval |]. split; [exact Hbytes |].
  split; [| split; [exact Hhd | exact Hk]].
  split; [exact Hone |].
  apply (Hk 4%nat); [lia |]. change (256 ^ Z.of_nat 4) with (2 ^ 32). lia.
Qed.

(** A digest whose last four bytes are 128, 0, 231, 219: bit 31 is masked
    and two bytes are left. *)
Lemma stringToSha256ToArrayBuff4_bytes_witness :
  exists bytes : list Z,
    stringToSha256ToArrayBuff4 (fun _ => (repeat 7 28 ++ [128; 0; 231; 219])%list) "LedgerW"
    = Ok bytes /\
    bytesValue bytes 0 = bytesValue (repeat 7 28 ++ [128; 0; 231; 219])%list 0 mod 2 ^ 31 /\
    Forall isByte bytes /\
    (1 <= List.length bytes <= 4)%nat /\
    (0 < bytesValue (repeat 7 28 ++ [128; 0; 231; 219])%list 0 mod 2 ^ 31 -> hd 0 bytes <> 0) /\
    forall k : nat, (1 <= k)%nat ->
      ((List.length bytes <= k)%nat <->
       bytesValue (repeat 7 28 ++ [128; 0; 231; 219])%list 0 mod 2 ^ 31 < 256 ^ Z.of_nat k).
Proof.
  apply (stringToSha256ToArrayBuff4_bytes
           (fun _ => (repeat 7 28 ++ [128; 0; 231; 219])%list) "LedgerW").
  - discriminate.
  - repeat constructor; unfold isByte; lia.
Defined.

End NumberBytes.

(** ** More on [addPercent] *)

Section PercentMore.

Import Js.

(** Raising and lowering by the same percent mirror each other around the
    base, and so do a base and its opposite: the quotient is truncated
    towards zero on either side.  Percent 0 changes nothing. *)
Theorem addPercent_mirror (base : BigNumberish) (b p : Z) :
  toBigInt base = Ok b ->
  exists up down : Z,
    addPercent base (Int p) = Ok up /\
    addPercent base (Int (- p)) = Ok down /\
    up + down = 2 * b /\
    addPercent (BBigInt (- b)) (Int p) = Ok (- up) /\
    addPercent base (Int 0) = Ok b.
Proof.
  intros Hb. unfold toBigInt in Hb. unfold addPercent. rewrite Hb. cbn [bind BigInt].
  exists (b + Z.quot (b * p) 100), (b + Z.quot (b * - p) 100).
  assert (H1 : Z.quot (b * - p) 100 = - Z.quot (b * p) 100).
  { rewrite Z.mul_opp_r. apply Z.quot_opp_l. lia. }
  assert (H2 : Z.quot (- b * p) 100 = - Z.quot (b * p) 100).
  { rewrite Z.mul_opp_l. apply Z.quot_opp_l. lia. }
  split; [reflexivity |]. split; [reflexivity |]. split; [lia |]. split.
  - f_equal. lia.
  - f_equal. rewrite Z.mul_0_r. cbn. lia.
Qed.

Lemma addPercent_mirror_witness :
  exists up down : Z,
    addPercent (BString "7") (Int 50) = Ok up /\
    addPercent (BString "7") (Int (- 50)) = Ok down /\
    up + down = 2 * 7 /\
    addPercent (BBigInt (- 7)) (Int 50) = Ok (- up) /\
    addPercent (BString "7") (Int 0) = Ok 7.
Proof. apply (addPercent_mirror (BString "7") 7 50). reflexivity. Defined.

End PercentMore.

(** ** Arrays *)

Section Arrays.

Import Js.

Context {A B : Type} (f : A -> result B).

Lemma mapArray_Ok (array : list A) (out : list B) :
  mapArray f array = Ok out -> Forall2 (fun x y => f x = Ok y) array out.
Proof.
  revert out. induction array as [| x l IH]; intros out; cbn [mapArray].
  - intros [= <-]. constructor.
  - destruct (f x) as [y |] eqn:Hx; [| discriminate]. cbn [bind].
    destruct (mapArray f l) as [ys |]; [| discriminate]. cbn [bind].
    intros [= <-]. constructor; auto.
Qed.

Lemma mapArray_total (array : list A) :
  Forall (fun x => exists y, f x = Ok y) array -> exists out, mapArray f array = Ok out.
Proof.
  induction 1 as [| x l [y Hy] _ [ys Hys]]; cbn [mapArray].
  - now exists [].
  - rewrite Hy, Hys. now exists (y :: ys).
Qed.

(** A throw is the throw of the first element the callback refuses. *)
Lemma mapArray_Throw (array : list A) (e : exn) :
  mapArray f array = Throw e ->
  exists (before : list A) (x : A) (after : list A),
    array = (before ++ x :: after)%list /\
    Forall (fun x => exists y, f x = Ok y) before /\
    f x = Throw e.
Proof.
  induction array as [| x l IH]; cbn [mapArray]; [discriminate |].
  destruct (f x) as [y |] eqn:Hx; cbn [bind].
  - destruct (mapArray f l) as [ys |]; cbn [bind]; [discriminate |].
    intros [= <-]. destruct (IH eq_refl) as (before & x' & after & -> & Hb & Hx').
    exists (x :: before), x', after. repeat split; eauto.
  - intros [= <-]. now exists [], x, l.
Qed.

Lemma mapArray_succeeds (array : list A) :
  (exists out, mapArray f array = Ok out) <->
  Forall (fun x => exists y, f x = Ok y) array.
Proof.
  split; [| apply mapArray_total].
  intros [out Hout%mapArray_Ok].
  induction Hout; constructor; eauto.
Qed.

End Arrays.

Section ArrayConverters.

Import Js.

(** [bigNumberishArrayToDecimalStringArray] returns exactly when every
    element converts; what it returns then has, in the same order, for each
    element a string that [toBigInt] converts to the same number, negative
    ones included.  When it throws, it throws what [toBigInt] throws on the
    first element that does not convert. *)
Theorem bigNumberishArrayToDecimalStringArray_values (data : list BigNumberish) :
  ((exists out, bigNumberishArrayToDecimalStringArray data = Ok out) <->
   Forall (fun x => exists z, toBigInt x = Ok z) data) /\
  (forall out, bigNumberishArrayToDecimalStringArray data = Ok out ->
     Forall2 (fun x s => toBigInt (BString s) = toBigInt x) data out) /\
  (forall e, bigNumberishArrayToDecimalStringArray data = Throw e ->
     exists before x after,
       data = (before ++ x :: after)%list /\
       Forall (fun x => exists z, toBigInt x = Ok z) before /\
       toBigInt x = Throw e).
Proof.
  unfold bigNumberishArrayToDecimalStringArray.
  set (f := fun x => z <- toBigInt x ;; Ok (toString z 10)).
  assert (Hok : forall x, (exists s, f x = Ok s) <-> exists z, toBigInt x = Ok z).
  { intros x. unfold f. destruct (toBigInt x) as [z |]; cbn [bind]; split;
      intros [y Hy]; try discriminate; eauto. }
  assert (Hall : forall l, Forall (fun x => exists s, f x = Ok s) l <->
                           Forall (fun x => exists z, toBigInt x = Ok z) l).
  { intros l. rewrite !Forall_forall. split; intros H x Hx; apply Hok, H, Hx. }
  split; [| split].
  - etransitivity; [apply mapArray_succeeds | apply Hall].
  - intros out Hout%mapArray_Ok.
    induction Hout as [| x s l out' Hx _ IH]; constructor; [| exact IH].
    unfold f in Hx. destruct (toBigInt x) as [z |]; [| discriminate].
    cbn [bind] in Hx. injection Hx as <-. apply toBigInt_toString.
  - intros e (before & x & after & -> & Hb & Hx)%mapArray_Throw.
    exists before, x, after. split; [reflexivity |]. split; [now apply Hall |].
    unfold f in Hx. destruct (toBigInt x); cbn [bind] in Hx; congruence.
Qed.

(** [bigNumberishArrayToHexadecimalStringArray] returns exactly when every
    element converts; what it returns then has, in the same order, for each
    element that denotes a number from 0 up a canonical hex string that
    [toBigInt] converts to the same number.  When it throws, it throws what
    [toBigInt] throws on the first element that does not convert. *)
Theorem bigNumberishArrayToHexadecimalStringArray_values (data : list BigNumberish) :
  ((exists out, bigNumberishArrayToHexadecimalStringArray data = Ok out) <->
   Forall (fun x => exists z, toBigInt x = Ok z) data) /\
  (forall out, bigNumberishArrayToHexadecimalStringArray data = Ok out ->
     Forall2 (fun x h => forall z, toBigInt x = Ok z -> 0 <= z ->
                         canonicalHex h = true /\ toBigInt (BString h) = Ok z)
             data out) /\
  (forall e, bigNumberishArrayToHexadecimalStringArray data = Throw e ->
     exists before x after,
       data = (before ++ x :: after)%list /\
       Forall (fun x => exists z, toBigInt x = Ok z) before /\
       toBigInt x = Throw e).
Proof.
  unfold bigNumberishArrayToHexadecimalStringArray.
  assert (Hok : forall x, (exists s, toHex x = Ok s) <-> exists z, toBigInt x = Ok z).
  { intros x. unfold toHex. destruct (toBigInt x) as [z |]; cbn [bind]; split;
      intros [y Hy]; try discriminate; eauto. }
  assert (Hall : forall l, Forall (fun x => exists s, toHex x = Ok s) l <->
                           Forall (fun x => exists z, toBigInt x = Ok z) l).
  { intros l. rewrite !Forall_forall. split; intros H x Hx; apply Hok, H, Hx. }
  split; [| split].
  - etransitivity; [apply mapArray_succeeds | apply Hall].
  - intros out Hout%mapArray_Ok.
    induction Hout as [| x s l out' Hx _ IH]; constructor; [| exact IH].
    intros z Hz Hpos.
    destruct (toHex_nonneg x z Hz Hpos) as (Hrun & Hcanon & Hparse).
    assert (s = "0x" ++ digits 16 z) as -> by congruence.
    split; [exact Hcanon |]. unfold toBigInt. apply BigInt_digits; [| exact Hparse].
    apply lower_hex, digits_lower; lia.
  - intros e (before & x & after & -> & Hb & Hx)%mapArray_Throw.
    exists before, x, after. split; [reflexivity |]. split; [now apply Hall |].
    unfold toHex in Hx. destruct (toBigInt x); cbn [bind] in Hx; congruence.
Qed.

Lemma getHexString_cases (str : string) :
  (isHex str || isStringWholeNumber str = true -> exists h, getHexString str = Ok h) /\
  (forall e, getHexString str = Throw e ->
     isHex str || isStringWholeNumber str = false /\ e = Error (neitherMessage str)).
Proof.
  unfold getHexString. destruct (isHex str) eqn:Hhex; cbn [orb].
  - split; [eauto | discriminate].
  - destruct (isStringWholeNumber str) eqn:Hw.
    + destruct (StringToBigInt_whole str Hw) as (z & Hbig & _ & Hz).
      assert (Hto : toBigInt (BString str) = Ok z)
        by (unfold toBigInt, BigInt; now rewrite Hbig).
      destruct (toHex_nonneg (BString str) z Hto Hz) as (Hrun & _).
      unfold toHexString. rewrite Hrun. split; [eauto | discriminate].
    + split; [discriminate |]. now intros e [= <-].
Qed.

(** [getHexStringArray] returns exactly when every element is a hex string
    or a whole-number string; what it returns then has, in the same order,
    for each element a hex string that denotes what the element denotes.
    When it throws, it throws the error that names the first element that
    is neither. *)
Theorem getHexStringArray_values (array : list string) :
  ((exists out, getHexStringArray array = Ok out) <->
   Forall (fun s => isHex s || isStringWholeNumber s = true) array) /\
  (forall out, getHexStringArray array = Ok out ->
     Forall2 (fun s h => isHex h = true /\
                         toBigInt (BString h) = toBigInt (BString s)) array out) /\
  (forall e, getHexStringArray array = Throw e ->
     exists before s after,
       array = (before ++ s :: after)%list /\
       Forall (fun s => isHex s || isStringWholeNumber s = true) before /\
       isHex s || isStringWholeNumber s = false /\
       e = Error (neitherMessage s)).
Proof.
  unfold getHexStringArray.
  assert (Hok : forall s, (exists h, getHexString s = Ok h) <->
                          isHex s || isStringWholeNumber s = true).
  { intros s. destruct (getHexString_cases s) as [Hgo Hstop]. split; [| exact Hgo].
    intros [h Hh]. destruct (isHex s || isStringWholeNumber s) eqn:E; [reflexivity |].
    destruct (getHexString s) as [h' | e] eqn:Hs.
    - unfold getHexString in Hs. apply orb_false_elim in E as [E1 E2].
      rewrite E1, E2 in Hs. discriminate.
    - discriminate. }
  assert (Hall : forall l, Forall (fun s => exists h, getHexString s = Ok h) l <->
                           Forall (fun s => isHex s || isStringWholeNumber s = true) l).
  { intros l. rewrite !Forall_forall. split; intros H x Hx; apply Hok, H, Hx. }
  split; [| split].
  - etransitivity; [apply mapArray_succeeds | apply Hall].
  - intros out Hout%mapArray_Ok.
    induction Hout as [| s h l out' Hs _ IH]; constructor; [| exact IH].
    now apply getHexString_ok.
  - intros e (before & s & after & -> & Hb & Hs)%mapArray_Throw.
    exists before, s, after. split; [reflexivity |]. split; [now apply Hall |].
    now apply getHexString_cases.
Qed.

End ArrayConverters.
